(** * Bac Bo pattern tracker: the analytics core

    A shallow embedding of the pure part of the tracker component
    (the file that defines [parseBulk], [computeStats], [importJson] and the
    [signals] memo), followed by the properties of the specification.

    Conventions of the embedding
    - counters are JavaScript numbers that only ever hold small naturals:
      they are [nat];
    - the two bias ratios are genuine IEEE-754 doubles, as in JavaScript:
      they are primitive [float]s and [0.6] is the binary64 literal;
    - text is a [string] of characters below 128; [toUpperCase] is the
      restriction of [String.prototype.toUpperCase] to those characters;
    - a [for ... of] loop is a [fold_left] of its body over the array,
      the indexed loop with [break] is a recursion on the loop index;
    - [uid()] and [Date.now()] read an explicit [World]. *)

From Stdlib Require Import List Arith Lia Bool.
From Stdlib Require Import Strings.Ascii Strings.String Numbers.DecimalString.
From Stdlib Require Import ZArith.
From Stdlib Require Import Floats.PrimFloat Numbers.Cyclic.Int63.Uint63.
Import ListNotations.

Set Implicit Arguments.

(** ** Outcome values and records *)

(** [type ColorKey = "R" | "B" | "T"]. *)
Inductive ColorKey : Set := R | B | T.

Definition ColorKey_eqb (a b : ColorKey) : bool :=
  match a, b with
  | R, R | B, B | T, T => true
  | _, _ => false
  end.

(** The value of [JSON.parse]: also what an [id] or a [ts] of a stored
    record may hold, since imported records keep whatever truthy value the
    file had there. An object is the list of its own properties, each key
    once. *)
#[local] Unset Elimination Schemes.
Inductive Json : Type :=
| JNull
| JBool (b : bool)
| JNum (x : float)
| JStr (s : string)
| JArr (items : list Json)
| JObj (props : list (string * Json)).
#[local] Set Elimination Schemes.

(** [type Result = { id; v; ts }]. *)
Record Result : Type := mkResult { id : Json; v : ColorKey; ts : Json }.

(** ** Bulk parser *)

Module Parser.

Definition code (c : ascii) : nat := nat_of_ascii c.

(** ASCII [toUpperCase]: [a]..[z] move down by 32. *)
Definition upperChar (c : ascii) : ascii :=
  if (97 <=? code c) && (code c <=? 122) then ascii_of_nat (code c - 32) else c.

Fixpoint toUpperCase (s : string) : string :=
  match s with
  | EmptyString => EmptyString
  | String c rest => String (upperChar c) (toUpperCase rest)
  end.

(** The class [\s] below 128: tab, line feed, vertical tab, form feed,
    carriage return, space. *)
Definition isSpace (c : ascii) : bool :=
  ((9 <=? code c) && (code c <=? 13)) || (code c =? 32).

(** Membership in the class [RBTREDLUEI\s,;\-\|] that the first regular
    expression negates: the letters of the three words, white space,
    comma, semicolon, hyphen (45) and pipe (124). *)
Definition isKept (c : ascii) : bool :=
  existsb (Ascii.eqb c) ["R"; "B"; "T"; "E"; "D"; "L"; "U"; "I"]%char
  || isSpace c
  || (code c =? 44) || (code c =? 59) || (code c =? 45) || (code c =? 124).

(** [.replaceAll(/[^RBTREDLUEI\s,;\-\|]/g, " ")]. *)
Fixpoint clean (s : string) : string :=
  match s with
  | EmptyString => EmptyString
  | String c rest => String (if isKept c then c else " "%char) (clean rest)
  end.

(** Membership in the class [\s,;\\-|] of the second regular expression:
    white space, comma, semicolon and the range from backslash (92) to
    pipe (124). *)
Definition isSplitChar (c : ascii) : bool :=
  isSpace c || (code c =? 44) || (code c =? 59)
  || ((92 <=? code c) && (code c <=? 124)).

(** [.split(/[...]+/)]: the pieces between maximal runs of separator
    characters, empty pieces at both ends included. [inSep] says that the
    previous character belonged to a separator run, [cur] is the piece
    being read. *)
Fixpoint splitFrom (inSep : bool) (cur : string) (s : string) : list string :=
  match s with
  | EmptyString => [cur]
  | String c rest =>
      if isSplitChar c then
        if inSep then splitFrom true EmptyString rest
        else cur :: splitFrom true EmptyString rest
      else splitFrom false (cur ++ String c EmptyString) rest
  end.

Definition split (s : string) : list string := splitFrom false EmptyString s.

(** The callback of [.map]: [None] is [null]. *)
Definition mapToken (t : string) : option ColorKey :=
  if String.eqb t "" then None
  else if existsb (String.eqb t) ["R"; "RED"]%string then Some R
  else if existsb (String.eqb t) ["B"; "BLUE"]%string then Some B
  else if existsb (String.eqb t) ["T"; "TIE"]%string then Some T
  else None.

(** [.filter(Boolean)] on an array of [null]s and non-empty strings. *)
Fixpoint filterBoolean (A : Type) (l : list (option A)) : list A :=
  match l with
  | [] => []
  | None :: rest => filterBoolean rest
  | Some a :: rest => a :: filterBoolean rest
  end.

Definition tokens (text : string) : list string :=
  split (clean (toUpperCase text)).

Definition parseBulk (text : string) : list ColorKey :=
  filterBoolean (map mapToken (tokens text)).

End Parser.

(** ** Statistics engine *)

Module Stats.

(** [Record<ColorKey, number>] with its three keys, as in
    [{ R: 0, B: 0, T: 0 }]. *)
Record PerColor : Set := mkPerColor { atR : nat; atB : nat; atT : nat }.

Definition zeroPerColor : PerColor := mkPerColor 0 0 0.

Definition get (m : PerColor) (c : ColorKey) : nat :=
  match c with R => atR m | B => atB m | T => atT m end.

Definition set (m : PerColor) (c : ColorKey) (n : nat) : PerColor :=
  match c with
  | R => mkPerColor n (atB m) (atT m)
  | B => mkPerColor (atR m) n (atT m)
  | T => mkPerColor (atR m) (atB m) n
  end.

(** One row of [dist]: the keys [1], [2], [3], [4], ["5"] and ["6+"]. *)
Record Buckets : Set :=
  mkBuckets { n1 : nat; n2 : nat; n3 : nat; n4 : nat; n5 : nat; n6plus : nat }.

Record Dist : Set := mkDist { distR : Buckets; distB : Buckets }.

Definition zeroBuckets : Buckets := mkBuckets 0 0 0 0 0 0.

(** [row[runLen >= 6 ? "6+" : runLen]++]. A run is only flushed while
    [runColor] is set, and [runColor] is set together with [runLen = 1],
    so the key [0], which is not one of the six, is never written: the
    row is left alone there. *)
Definition bump (row : Buckets) (runLen : nat) : Buckets :=
  match runLen with
  | 0 => row
  | 1 => mkBuckets (S (n1 row)) (n2 row) (n3 row) (n4 row) (n5 row) (n6plus row)
  | 2 => mkBuckets (n1 row) (S (n2 row)) (n3 row) (n4 row) (n5 row) (n6plus row)
  | 3 => mkBuckets (n1 row) (n2 row) (S (n3 row)) (n4 row) (n5 row) (n6plus row)
  | 4 => mkBuckets (n1 row) (n2 row) (n3 row) (S (n4 row)) (n5 row) (n6plus row)
  | 5 => mkBuckets (n1 row) (n2 row) (n3 row) (n4 row) (S (n5 row)) (n6plus row)
  | _ => mkBuckets (n1 row) (n2 row) (n3 row) (n4 row) (n5 row) (S (n6plus row))
  end.

(** The returned object. *)
Record Snapshot : Set := mkSnapshot {
  total : nat;
  alternations : nat;
  currentStreak : nat;
  currentColor : option ColorKey;
  longest : PerColor;
  dist : Dist;
  last20 : PerColor;
  zebraMax : nat
}.

(** [last === x] for a nullable [last]. *)
Definition same (last : option ColorKey) (x : ColorKey) : bool :=
  match last with Some c => ColorKey_eqb c x | None => false end.

(** [last && x !== last]. *)
Definition differs (last : option ColorKey) (x : ColorKey) : bool :=
  match last with Some c => negb (ColorKey_eqb x c) | None => false end.

(** [history.slice(-n)]; [slice(-0)] is [slice(0)], the whole array. *)
Definition lastN (A : Type) (history : list A) (n : nat) : list A :=
  match n with
  | 0 => history
  | _ => skipn (List.length history - n) history
  end.

(** Body of the alternation loop; the state is
    [(alternations, lastColor)]. *)
Definition altStep (st : nat * option ColorKey) (x : ColorKey)
  : nat * option ColorKey :=
  match x with
  | T => st
  | _ => let '(alt, lastColor) := st in
         ((if differs lastColor x then S alt else alt), Some x)
  end.

(** The current-streak loop [for (i = seq.length - 1; i >= 0; i--)],
    entered with [k = i + 1]. Returns [(currentColor, currentStreak)]. *)
Fixpoint streakLoop (seq : list ColorKey) (k : nat)
         (curColor : option ColorKey) (curStreak : nat)
  : option ColorKey * nat :=
  match k with
  | 0 => (curColor, curStreak)
  | S i =>
      let x := nth i seq T in
      match x with
      | T => (curColor, curStreak)
      | _ =>
          match curColor with
          | None => streakLoop seq i (Some x) 1
          | Some c =>
              if ColorKey_eqb x c then streakLoop seq i curColor (S curStreak)
              else (curColor, curStreak)
          end
      end
  end.

(** [if (runColor) longest[runColor] = Math.max(longest[runColor], runLen)]. *)
Definition flushLongest (lg : PerColor) (runColor : option ColorKey) (runLen : nat)
  : PerColor :=
  match runColor with
  | Some c => set lg c (Nat.max (get lg c) runLen)
  | None => lg
  end.

(** Body of the longest-streak loop; the state is
    [(longest, runColor, runLen)]. *)
Definition longestStep (st : PerColor * option ColorKey * nat) (x : ColorKey)
  : PerColor * option ColorKey * nat :=
  let '(lg, runColor, runLen) := st in
  if same runColor x then (lg, runColor, S runLen)
  else (flushLongest lg runColor runLen, Some x, 1).

Definition longestOf (seq : list ColorKey) : PerColor :=
  let '(lg, runColor, runLen) := fold_left longestStep seq (zeroPerColor, None, 0) in
  flushLongest lg runColor runLen.

(** [if (runColor && (runColor === "R" || runColor === "B"))
    dist[runColor][bucket]++]. *)
Definition flushDist (d : Dist) (runColor : option ColorKey) (runLen : nat) : Dist :=
  match runColor with
  | Some R => mkDist (bump (distR d) runLen) (distB d)
  | Some B => mkDist (distR d) (bump (distB d) runLen)
  | _ => d
  end.

(** Body of the distribution loop; the state is [(dist, runColor, runLen)]. *)
Definition distStep (st : Dist * option ColorKey * nat) (x : ColorKey)
  : Dist * option ColorKey * nat :=
  let '(d, runColor, runLen) := st in
  match x with
  | T => (flushDist d runColor runLen, None, 0)
  | _ =>
      if same runColor x then (d, runColor, S runLen)
      else (flushDist d runColor runLen, Some x, 1)
  end.

Definition distOf (seq : list ColorKey) : Dist :=
  let '(d, runColor, runLen) :=
    fold_left distStep seq (mkDist zeroBuckets zeroBuckets, None, 0) in
  flushDist d runColor runLen.

(** [last20.forEach((v) => count20[v]++)]. *)
Definition countStep (m : PerColor) (x : ColorKey) : PerColor :=
  set m x (S (get m x)).

(** Body of the zebra loop; the state is [(zebraMax, zebraCur, lastColor)]. *)
Definition zebraStep (st : nat * nat * option ColorKey) (x : ColorKey)
  : nat * nat * option ColorKey :=
  let '(zMax, zCur, lastColor) := st in
  match x with
  | T => (Nat.max zMax zCur, 0, None)
  | _ =>
      let zCur' :=
        if differs lastColor x then S zCur
        else match lastColor with
             | None => 1
             | Some _ => 1
             end in
      (Nat.max zMax zCur', zCur', Some x)
  end.

Definition zebraOf (seq : list ColorKey) : nat :=
  let '(zMax, _, _) := fold_left zebraStep seq (0, 0, None) in zMax.

Definition computeStats (history : list Result) : Snapshot :=
  let seq := map v history in
  let streak := streakLoop seq (List.length seq) None 0 in
  {| total := List.length history;
     alternations := fst (fold_left altStep seq (0, None));
     currentStreak := snd streak;
     currentColor := fst streak;
     longest := longestOf seq;
     dist := distOf seq;
     last20 := fold_left countStep (map v (lastN history 20)) zeroPerColor;
     zebraMax := zebraOf seq |}.

End Stats.

(** ** Signal evaluator *)

Module Signals.
Import Stats.

(** An entry of [list]. *)
Record Signal : Set :=
  mkSignal { id : string; title : string; desc : string; on : bool }.

(** A counter as a double. *)
Definition num (n : nat) : float := PrimFloat.of_uint63 (Uint63.of_Z (Z.of_nat n)).

(** A counter inside a template literal. *)
Definition show (n : nat) : string := NilEmpty.string_of_uint (Nat.to_uint n).

Definition total20 (stats : Snapshot) : nat :=
  atR (last20 stats) + atB (last20 stats) + atT (last20 stats).

Definition redBias (stats : Snapshot) : float :=
  if 0 <? total20 stats
  then PrimFloat.div (num (atR (last20 stats))) (num (total20 stats))
  else 0%float.

Definition blueBias (stats : Snapshot) : float :=
  if 0 <? total20 stats
  then PrimFloat.div (num (atB (last20 stats))) (num (total20 stats))
  else 0%float.

(** [x >= 0.6] on doubles; the literal denotes the double nearest to
    six tenths, [0x1.3333333333333p-1]. *)
#[local] Set Warnings "-inexact-float".
Definition geSixTenths (x : float) : bool := PrimFloat.leb 0.6%float x.
#[local] Set Warnings "inexact-float".

Definition signals (stats : Snapshot) : list Signal :=
  [ {| id := "zebra";
       title := "Zebra / Alternância";
       desc := ("Maior alternância consecutiva observada: "
                ++ show (zebraMax stats))%string;
       on := 5 <=? zebraMax stats |};
    {| id := "streaklong";
       title := "Sequência Longa";
       desc := ("Maior streak: R=" ++ show (atR (longest stats))
                ++ ", B=" ++ show (atB (longest stats)))%string;
       on := (5 <=? atR (longest stats)) || (5 <=? atB (longest stats)) |};
    {| id := "bias";
       title := "Viés nas últimas 20";
       desc := ("Últimos 20 → R=" ++ show (atR (last20 stats))
                ++ ", B=" ++ show (atB (last20 stats))
                ++ ", T=" ++ show (atT (last20 stats)))%string;
       on := geSixTenths (redBias stats) || geSixTenths (blueBias stats) |};
    {| id := "ties";
       title := "Ties frequentes";
       desc := ("Últimos 20 tiveram " ++ show (atT (last20 stats))
                ++ " ties")%string;
       on := 3 <=? atT (last20 stats) |} ].

End Signals.

(** ** Import of a history file *)

Module Tracker.

(** What [uid()] and [Date.now()] read: [rng w k] is the string that the
    [k]-th call of [uid()] builds, [clock w k] the number that the [k]-th
    call of [Date.now()] returns. *)
Record World : Type := mkWorld {
  rng : nat -> string;
  clock : nat -> float;
  uidCalls : nat;
  nowCalls : nat
}.

Definition M (A : Type) : Type := World -> A * World.

Definition ret (A : Type) (a : A) : M A := fun w => (a, w).

Definition bind (A B : Type) (m : M A) (f : A -> M B) : M B :=
  fun w => let (a, w') := m w in f a w'.

Notation "x <- m ;; k" := (bind m (fun x => k))
  (at level 61, m at next level, right associativity).

(** [Date.now()]. *)
Definition dateNow : M Json :=
  fun w => (JNum (clock w (nowCalls w)),
            mkWorld (rng w) (clock w) (uidCalls w) (S (nowCalls w))).

(** [uid()], which reads the clock once on its way. *)
Definition uid : M Json :=
  fun w => (JStr (rng w (uidCalls w)),
            mkWorld (rng w) (clock w) (S (uidCalls w)) (S (nowCalls w))).

(** [Array.prototype.map] with an effectful callback, left to right. *)
Fixpoint mapM (A B : Type) (f : A -> M B) (l : list A) : M (list B) :=
  match l with
  | [] => ret []
  | a :: rest =>
      b <- f a ;;
      bs <- mapM f rest ;;
      ret (b :: bs)
  end.

(** The component state that the import touches, and the messages shown
    by [alert], newest first. *)
Record App : Type := mkApp { history : list Result; alerts : list string }.

Definition setHistory (h : list Result) (st : App) : App :=
  mkApp h (alerts st).

Definition alert (msg : string) (st : App) : App :=
  mkApp (history st) (msg :: alerts st).

(** Truthiness of a value; [None] is [undefined]. *)
Definition truthy (x : option Json) : bool :=
  match x with
  | None => false
  | Some JNull => false
  | Some (JBool b) => b
  | Some (JNum n) => negb (PrimFloat.eqb n 0%float || PrimFloat.is_nan n)
  | Some (JStr s) => negb (String.eqb s "")
  | Some (JArr _) => true
  | Some (JObj _) => true
  end.

Fixpoint lookup (k : string) (props : list (string * Json)) : option Json :=
  match props with
  | [] => None
  | (k', x) :: rest => if String.eqb k k' then Some x else lookup k rest
  end.

(** [j.k] for a [j] other than [null] and a key [k] among ["v"], ["id"],
    ["ts"], ["results"]: an own property of an object, [undefined] on
    numbers, booleans, strings and arrays. *)
Definition member (j : Json) (k : string) : option Json :=
  match j with
  | JObj props => lookup k props
  | _ => None
  end.

(** [["R", "B", "T"].includes(x)], with the tag found. *)
Definition tagOf (x : option Json) : option ColorKey :=
  match x with
  | Some (JStr s) =>
      if String.eqb s "R" then Some R
      else if String.eqb s "B" then Some B
      else if String.eqb s "T" then Some T
      else None
  | _ => None
  end.

Definition includesTag (x : option Json) : bool :=
  match tagOf x with Some _ => true | None => false end.

(** [x as ColorKey]: only applied to values that passed [includesTag]. *)
Definition asColorKey (x : option Json) : ColorKey :=
  match tagOf x with Some c => c | None => T end.

(** [x || alt]. *)
Definition orElse (x : option Json) (alt : M Json) : M Json :=
  match x with
  | Some j => if truthy x then ret j else alt
  | None => alt
  end.

(** [(r) => r && ["R", "B", "T"].includes(r.v)]. *)
Definition keepRecord (r : Json) : bool :=
  truthy (Some r) && includesTag (member r "v").

(** [(r) => ({ id: r.id || uid(), v: r.v, ts: r.ts || Date.now() })]. *)
Definition stampRecord (r : Json) : M Result :=
  i <- orElse (member r "id") uid ;;
  t <- orElse (member r "ts") dateNow ;;
  ret (mkResult i (asColorKey (member r "v")) t).

(** [(v) => ({ id: uid(), v, ts: Date.now() })]. *)
Definition stampTag (x : Json) : M Result :=
  i <- uid ;;
  t <- dateNow ;;
  ret (mkResult i (asColorKey (Some x)) t).

(** The [reader.onload] handler of [importJson]. [parsed] is the outcome
    of [JSON.parse(String(reader.result))], [None] when it throws. A
    [null] payload makes [parsed.results] throw, which lands in the same
    [catch]. *)
Definition importJson (parsed : option Json) (st : App) : M App :=
  match parsed with
  | None => ret (alert "Falha ao ler JSON" st)
  | Some (JArr items) =>
      valid <- mapM stampRecord (filter keepRecord items) ;;
      ret (setHistory valid st)
  | Some JNull => ret (alert "Falha ao ler JSON" st)
  | Some j =>
      match member j "results" with
      | Some (JArr items) =>
          valid <- mapM stampTag (filter (fun x => includesTag (Some x)) items) ;;
          ret (setHistory valid st)
      | _ => ret (alert "JSON inválido" st)
      end
  end.

End Tracker.

(** ** Vocabulary of the specification *)

Module Spec.
Import Stats.

(** A record as [push] makes it. *)
Definition outcome (i : string) (c : ColorKey) (t : float) : Result :=
  mkResult (JStr i) c (JNum t).

(** A history with the given values and the ids ["0"], ["1"], ... *)
Fixpoint historyFrom (k : nat) (values : list ColorKey) : list Result :=
  match values with
  | [] => []
  | c :: rest => outcome (Signals.show k) c (Signals.num k) :: historyFrom (S k) rest
  end.

Definition historyOf (values : list ColorKey) : list Result := historyFrom 0 values.

Definition nonTie (c : ColorKey) : bool := negb (ColorKey_eqb c T).

(** The non-Tie outcomes of a history, in order. *)
Definition nonTies (h : list Result) : list ColorKey := filter nonTie (map v h).

(** A zebra: no Tie, and no two neighbours alike. *)
Definition zebraRun (seg : list ColorKey) : Prop :=
  Forall (fun c => c <> T) seg /\
  forall i a b, nth_error seg i = Some a -> nth_error seg (S i) = Some b -> a <> b.

(** "Fewer than 2 consecutive non-Tie outcomes without an intervening
    repeat": every zebra inside the sequence is shorter than 2. *)
Definition fewerThanTwoZebra (seq : list ColorKey) : Prop :=
  forall pre seg post,
    seq = pre ++ seg ++ post -> zebraRun seg -> List.length seg < 2.

(** Every character of [s] satisfies [p]. *)
Fixpoint allChars (p : ascii -> bool) (s : string) : bool :=
  match s with
  | EmptyString => true
  | String c rest => p c && allChars p rest
  end.

(** A character that, once in upper case, survives the cleaning and does
    not split: a letter of the three words, or a hyphen. *)
Definition wordChar (c : ascii) : bool :=
  Parser.isKept (Parser.upperChar c) && negb (Parser.isSplitChar (Parser.upperChar c)).

(** The doubles [r / t] for [0 <= r <= t], [1 <= t <= 20] compare with
    [0.6] as the fractions do with six tenths. *)
Definition biasTable : bool :=
  forallb (fun t =>
    forallb (fun r =>
      Bool.eqb (Signals.geSixTenths (PrimFloat.div (Signals.num r) (Signals.num t)))
               (3 * t <=? 5 * r))
      (seq 0 (S t)))
    (seq 1 20).

(** The string of a tag. *)
Definition tagString (c : ColorKey) : string :=
  match c with R => "R" | B => "B" | T => "T" end.

(** A record of an imported array whose value is the recognised tag [c]. *)
Definition validRecord (r : Json) (c : ColorKey) : Prop :=
  exists props, r = JObj props /\ Tracker.lookup "v" props = Some (JStr (tagString c)).

(** A payload that is neither an array nor an object with a [results]
    array; a text that does not parse counts as such. *)
Definition badShape (parsed : option Json) : Prop :=
  match parsed with
  | None => True
  | Some (JArr _) => False
  | Some (JObj props) =>
      match Tracker.lookup "results" props with
      | Some (JArr _) => False
      | _ => True
      end
  | Some _ => True
  end.

(** The id of [res], for a record [r] met after [u] calls of [uid()] and
    [n] readings of the clock: the one [r] carries, no call being made, or,
    when [r] has none (or a falsy one), the id of the next call of
    [uid()], which is call number [u] and reads the clock once. [u'] and
    [n'] count the calls and readings afterwards. *)
Definition idBackfilled (w : Tracker.World) (u n : nat) (r : Json) (res : Result)
           (u' n' : nat) : Prop :=
  if Tracker.truthy (Tracker.member r "id")
  then Some (id res) = Tracker.member r "id" /\ u' = u /\ n' = n
  else id res = JStr (Tracker.rng w u) /\ u' = S u /\ n' = S n.

(** Likewise for the timestamp: the one [r] carries, or the next reading
    of the clock, which is reading number [n]. *)
Definition tsBackfilled (w : Tracker.World) (n : nat) (r : Json) (res : Result)
           (n' : nat) : Prop :=
  if Tracker.truthy (Tracker.member r "ts")
  then Some (ts res) = Tracker.member r "ts" /\ n' = n
  else ts res = JNum (Tracker.clock w n) /\ n' = S n.

(** [imports w u n items out u' n']: [out] is what an import makes of the
    array [items], record by record, when [uid()] has been called [u] times
    and the clock read [n] times before, and [u'] and [n'] times after. A
    record without a recognised value is dropped and costs no call; a kept
    record is backfilled, first its id, then its timestamp. *)
Inductive imports (w : Tracker.World)
  : nat -> nat -> list Json -> list Result -> nat -> nat -> Prop :=
| imports_nil u n : imports w u n [] [] u n
| imports_drop u n r rest out u' n' :
    (forall c, ~ validRecord r c) ->
    imports w u n rest out u' n' -> imports w u n (r :: rest) out u' n'
| imports_keep u n r c rest res out u1 n1 n2 u' n' :
    validRecord r c -> v res = c ->
    idBackfilled w u n r res u1 n1 -> tsBackfilled w n1 r res n2 ->
    imports w u1 n2 rest out u' n' ->
    imports w u n (r :: rest) (res :: out) u' n'.

(** World [w'] is world [w] after some more calls. *)
Definition later (w w' : Tracker.World) : Prop :=
  Tracker.rng w' = Tracker.rng w /\ Tracker.clock w' = Tracker.clock w
  /\ Tracker.uidCalls w <= Tracker.uidCalls w'
  /\ Tracker.nowCalls w <= Tracker.nowCalls w'.

(** The window counts of a snapshot, added up. *)
Definition sum3 (m : PerColor) : nat := atR m + atB m + atT m.

(** A world, a component state and two payloads to run the import on. *)
Definition sampleWorld : Tracker.World :=
  Tracker.mkWorld (fun k => ("uid" ++ Signals.show k)%string)
                  (fun k => Signals.num (1000 + k)) 0 0.

Definition sampleApp : Tracker.App :=
  Tracker.mkApp (historyOf [B; B]) [].

Definition sampleItems : list Json :=
  [ JObj [("v", JStr "R")];
    JObj [("v", JStr "X"); ("id", JStr "a")];
    JNum 3;
    JObj [("id", JStr "k"); ("v", JStr "B"); ("ts", JNum 5)];
    JNull;
    JObj [("id", JStr ""); ("ts", JNum 0); ("v", JStr "T")] ]%string.

Definition sampleBadPayload : Json := JObj [("results", JStr "R")]%string.

(** The scenario history of the specification. *)
Definition scenario : list ColorKey := [R; R; R; B; B; T; R].

End Spec.

(** ** Loop invariants *)

Module Inv.
Import Stats.

(** While the loop runs, the part of [seq] already visited is
    [curStreak] copies of [curColor]. *)
Definition streakInv (seq : list ColorKey) (k : nat)
           (curColor : option ColorKey) (curStreak : nat) : Prop :=
  match curColor with
  | None => curStreak = 0 /\ k = List.length seq
  | Some c => c <> T /\ 1 <= curStreak /\ skipn k seq = repeat c curStreak
  end.

(** When it stops, [seq] ends with that run. *)
Definition streakPost (seq : list ColorKey) (res : option ColorKey * nat) : Prop :=
  match fst res with
  | None => snd res = 0
  | Some c => c <> T /\ 1 <= snd res /\ exists pre, seq = pre ++ repeat c (snd res)
  end.


(** What the longest-streak loop has secured for colour [c] so far: the
    stored maximum, or the run in progress when that run is of [c]. *)
Definition runBound (st : PerColor * option ColorKey * nat) (c : ColorKey) : nat :=
  let '(lg, runColor, runLen) := st in
  Nat.max (get lg c) (if same runColor c then runLen else 0).

(** Both zebra counters are at most [n]. *)
Definition zebraBelow (n : nat) (st : nat * nat * option ColorKey) : Prop :=
  fst (fst st) <= n /\ snd (fst st) <= n.

(** Some outcome of [seq] is a non-Tie that differs from the non-Tie just
    before it, [last] standing before the first one. *)
Fixpoint altPairFrom (last : option ColorKey) (seq : list ColorKey) : bool :=
  match seq with
  | [] => false
  | x :: rest =>
      (differs last x && negb (ColorKey_eqb x T))
      || altPairFrom (match x with T => None | _ => Some x end) rest
  end.

End Inv.

(** ** The other handlers of the component *)

Module Ops.
Import Tracker Spec.

(** [colorLabel]. *)
Definition colorLabel (x : ColorKey) : string :=
  match x with R => "Red" | B => "Blue" | T => "Tie" end.

(** [(v) => ({ id: uid(), v, ts: Date.now() })] for a tag already typed. *)
Definition stamp (x : ColorKey) : M Result :=
  i <- uid ;;
  t <- dateNow ;;
  ret (mkResult i x t).

(** [push(v)]. *)
Definition push (x : ColorKey) (st : App) : M App :=
  r <- stamp x ;;
  ret (setHistory (history st ++ [r]) st).

(** [undo()]: [h.slice(0, -1)]. *)
Definition undo (st : App) : App :=
  setHistory (firstn (List.length (history st) - 1) (history st)) st.

(** [clearAll()], given the answer to [confirm]. *)
Definition clearAll (confirmed : bool) (st : App) : App :=
  if confirmed then setHistory [] st else st.

(** [handleBulkAdd()] on the text field [bulk]; returns the new text field
    as well. *)
Definition handleBulkAdd (bulk : string) (st : App) : M (App * string) :=
  let arr := Parser.parseBulk bulk in
  match arr with
  | [] => ret (st, bulk)
  | _ =>
      news <- mapM stamp arr ;;
      ret (setHistory (history st ++ news) st, EmptyString)
  end.

(** [a === b] for the ids of the records at positions [i] and [j] of a
    history. Primitives compare by value, doubles with the IEEE equality;
    an array or an object is only identical to itself, and two records
    never share one, so these are identical exactly when [i = j]. *)
Definition strictEq (i j : nat) (a b : Json) : bool :=
  match a, b with
  | JNull, JNull => true
  | JBool x, JBool y => Bool.eqb x y
  | JNum x, JNum y => PrimFloat.eqb x y
  | JStr s, JStr t => String.eqb s t
  | JArr _, JArr _ => i =? j
  | JObj _, JObj _ => i =? j
  | _, _ => false
  end.

(** [h.filter((x) => keep(index of x, x))], counting positions from [j]. *)
Fixpoint filterFrom (A : Type) (keep : nat -> A -> bool) (j : nat) (h : list A)
  : list A :=
  match h with
  | [] => []
  | x :: rest =>
      if keep j x then x :: filterFrom keep (S j) rest
      else filterFrom keep (S j) rest
  end.

(** The click on the button of the record at position [i]:
    [h.filter((x) => x.id !== r.id)]. There is no button past the end. *)
Definition deleteAt (i : nat) (st : App) : App :=
  match nth_error (history st) i with
  | None => st
  | Some r =>
      setHistory
        (filterFrom (fun j x => negb (strictEq j i (id x) (id r))) 0 (history st)) st
  end.

(** [(x || "").toUpperCase()]: [None] when it throws, which it does on a
    truthy value that is not a string. *)
Definition upperOf (x : Json) : option string :=
  if truthy (Some x) then
    match x with
    | JStr s => Some (Parser.toUpperCase s)
    | _ => None
    end
  else Some EmptyString.

(** [.map] with a callback that may throw: the first throw ends it. *)
Fixpoint mapThrowing (A C : Type) (f : A -> option C) (l : list A) : option (list C) :=
  match l with
  | [] => Some []
  | a :: rest =>
      match f a with
      | None => None
      | Some c =>
          match mapThrowing f rest with
          | None => None
          | Some cs => Some (c :: cs)
          end
      end
  end.

(** One tick of the polling callback. [response] is the outcome of
    [await (await fetch(pollUrl)).json()], [None] when either throws. The
    result says besides whether [console.warn] was reached. *)
Definition pollTick (pollUrl : string) (response : option Json) (st : App)
  : M (App * bool) :=
  if String.eqb pollUrl "" then ret (st, false)
  else
    match response with
    | None => ret (st, true)
    | Some data =>
        match (match data with JNull => None | _ => member data "results" end) with
        | Some (JArr items) =>
            match mapThrowing upperOf items with
            | None => ret (st, true)
            | Some upper =>
                let sanitized :=
                  filter (fun s => includesTag (Some (JStr s))) upper in
                next <- mapM (fun s => stampTag (JStr s)) sanitized ;;
                match next with
                | [] => ret (st, false)
                | _ => ret (setHistory next st, false)
                end
            end
        | _ => ret (st, false)
        end
    end.

(** What [JSON.stringify] writes for a record. *)
Definition recordJson (r : Result) : Json :=
  JObj [("id", id r); ("v", JStr (tagString (v r))); ("ts", ts r)]%string.

(** The value that the file written by [exportJson] denotes. *)
Definition exported (h : list Result) : Json := JArr (map recordJson h).

(** [JSON.parse(JSON.stringify(j))]: a number that is not finite is written
    as [null], and negative zero as [0]; everything else comes back. *)
Fixpoint reparse (j : Json) : Json :=
  match j with
  | JNum x =>
      if PrimFloat.is_nan x || PrimFloat.is_infinity x then JNull
      else if PrimFloat.eqb x 0%float then JNum 0%float
      else JNum x
  | JArr items => JArr (map reparse items)
  | JObj props => JObj (map (fun p => (fst p, reparse (snd p))) props)
  | _ => j
  end.

(** A row of [chartData]. *)
Record Row : Set := mkRow { bucket : string; Red : nat; Blue : nat }.

(** [chartData]: [stats.dist.R[b] || 0] is the count itself. *)
Definition chartData (stats : Stats.Snapshot) : list Row :=
  let r := Stats.distR (Stats.dist stats) in
  let b := Stats.distB (Stats.dist stats) in
  [ mkRow "1" (Stats.n1 r) (Stats.n1 b);
    mkRow "2" (Stats.n2 r) (Stats.n2 b);
    mkRow "3" (Stats.n3 r) (Stats.n3 b);
    mkRow "4" (Stats.n4 r) (Stats.n4 b);
    mkRow "5" (Stats.n5 r) (Stats.n5 b);
    mkRow "6+" (Stats.n6plus r) (Stats.n6plus b) ].

End Ops.

(** ** Reference descriptions of the statistics *)

Module Ref.
Import Stats.

(** Number of places where two neighbours differ. *)
Fixpoint changes (l : list ColorKey) : nat :=
  match l with
  | [] => 0
  | a :: rest =>
      match rest with
      | [] => 0
      | b :: _ => (if ColorKey_eqb a b then 0 else 1) + changes rest
      end
  end.

(** Run-length encoding, the run in progress being [n] copies of [cur]. *)
Fixpoint rleFrom (cur : ColorKey) (n : nat) (l : list ColorKey)
  : list (ColorKey * nat) :=
  match l with
  | [] => [(cur, n)]
  | x :: rest =>
      if ColorKey_eqb cur x then rleFrom cur (S n) rest
      else (cur, n) :: rleFrom x 1 rest
  end.

(** The maximal runs of a sequence, in order. *)
Definition rle (l : list ColorKey) : list (ColorKey * nat) :=
  match l with
  | [] => []
  | x :: rest => rleFrom x 1 rest
  end.

(** Number of runs of colour [c] whose length satisfies [p]. *)
Definition runsWith (c : ColorKey) (p : nat -> bool) (runs : list (ColorKey * nat))
  : nat :=
  List.length (filter (fun run => ColorKey_eqb (fst run) c && p (snd run)) runs).

(** Number of outcomes of colour [c]. *)
Definition occurrences (c : ColorKey) (l : list ColorKey) : nat :=
  List.length (filter (ColorKey_eqb c) l).

(** The words of [words] with the character [sep] between them. *)
Fixpoint joinWith (sep : ascii) (words : list string) : string :=
  match words with
  | [] => EmptyString
  | w :: rest =>
      match rest with
      | [] => w
      | _ => (w ++ String sep (joinWith sep rest))%string
      end
  end.

(** What a finished run adds to the longest streaks. *)
Definition recordMax (lg : PerColor) (run : ColorKey * nat) : PerColor :=
  set lg (fst run) (Nat.max (get lg (fst run)) (snd run)).

(** What a finished run adds to the distribution. *)
Definition recordRun (d : Dist) (run : ColorKey * nat) : Dist :=
  flushDist d (Some (fst run)) (snd run).

(** A row of the distribution with the runs of colour [c] in [runs] added,
    by length: 1 to 5, and 6 or more. *)
Definition addRuns (row : Buckets) (c : ColorKey) (runs : list (ColorKey * nat))
  : Buckets :=
  mkBuckets (n1 row + runsWith c (Nat.eqb 1) runs)
            (n2 row + runsWith c (Nat.eqb 2) runs)
            (n3 row + runsWith c (Nat.eqb 3) runs)
            (n4 row + runsWith c (Nat.eqb 4) runs)
            (n5 row + runsWith c (Nat.eqb 5) runs)
            (n6plus row + runsWith c (Nat.leb 6) runs).

Definition histogram (d : Dist) (runs : list (ColorKey * nat)) : Dist :=
  mkDist (addRuns (distR d) R runs) (addRuns (distB d) B runs).

(** The sequence that a list of runs stands for. *)
Definition decode (runs : list (ColorKey * nat)) : list ColorKey :=
  flat_map (fun run => repeat (fst run) (snd run)) runs.

(** Neighbouring runs have different colours, and no run is empty. *)
Fixpoint properRuns (runs : list (ColorKey * nat)) : bool :=
  match runs with
  | [] => true
  | run :: rest =>
      (1 <=? snd run)
      && match rest with
         | [] => true
         | next :: _ => negb (ColorKey_eqb (fst run) (fst next))
         end
      && properRuns rest
  end.

(** A zebra, decided: no Tie, and no two neighbours alike. *)
Fixpoint isZebra (seg : list ColorKey) : bool :=
  match seg with
  | [] => true
  | a :: rest =>
      negb (ColorKey_eqb a T)
      && match rest with
         | [] => true
         | b :: _ => negb (ColorKey_eqb a b)
         end
      && isZebra rest
  end.

(** A character that ends a token once the text is in upper case and
    cleaned: white space, comma, semicolon, pipe, and every character that
    the cleaning step blanks. *)
Definition separates (c : ascii) : bool :=
  let u := Parser.upperChar c in
  Parser.isSplitChar (if Parser.isKept u then u else " "%char).

(** A character below 128. *)
Definition isAscii (c : ascii) : bool := Parser.code c <? 128.

(** A character that is none of [r], [b], [t] in either case. *)
Definition noTagLetter (c : ascii) : bool :=
  negb (existsb (Ascii.eqb (Parser.upperChar c)) ["R"; "B"; "T"]%char).

(** A character that is none of [R], [B], [T]. *)
Definition noTagCapital (c : ascii) : bool :=
  negb (existsb (Ascii.eqb c) ["R"; "B"; "T"]%char).

(** The outcomes of a list of pieces. *)
Definition outcomesOf (pieces : list string) : list ColorKey :=
  Parser.filterBoolean (map Parser.mapToken pieces).

(** The state of the distribution loop while the run in progress is [n]
    copies of [cur]: a Tie run is no run for that loop. *)
Definition distState (d : Dist) (cur : ColorKey) (n : nat)
  : Dist * option ColorKey * nat :=
  match cur with
  | T => (d, None, 0)
  | _ => (d, Some cur, n)
  end.

(** The zebra loop after the prefix [p]: [p] contains a zebra as long as the
    maximum, and ends with a zebra as long as the running counter, whose
    last outcome is the remembered colour. *)
Definition zebraInv (p : list ColorKey) (st : nat * nat * option ColorKey) : Prop :=
  (exists pre seg post,
      p = pre ++ seg ++ post /\ isZebra seg = true /\ List.length seg = fst (fst st))
  /\ (exists pre seg,
         p = pre ++ seg /\ isZebra seg = true /\ List.length seg = snd (fst st)
         /\ match snd st with
            | None => seg = []
            | Some c => exists seg', seg = seg' ++ [c]
            end).

(** A record whose id and timestamp are written and read back unchanged and
    pass for present. *)
Definition stable (r : Result) : Prop :=
  Tracker.truthy (Some (id r)) = true /\ Ops.reparse (id r) = id r
  /\ Tracker.truthy (Some (ts r)) = true /\ Ops.reparse (ts r) = ts r.

(** The id is a string. *)
Definition stringId (r : Result) : Prop := exists s, id r = JStr s.

End Ref.

(** * Properties *)

(** ** Alternations, streaks and zebra *)

Section StatsFacts.
Import Stats Spec Inv.

Lemma ColorKey_eqb_eq (a b : ColorKey) : ColorKey_eqb a b = true <-> a = b.
Proof. destruct a, b; simpl; split; congruence. Qed.

Lemma ColorKey_eqb_refl (a : ColorKey) : ColorKey_eqb a a = true.
Proof. now destruct a. Qed.

Lemma map_lastN (A C : Type) (f : A -> C) (h : list A) (n : nat) :
  map f (lastN h n) = lastN (map f h) n.
Proof.
  unfold lastN. destruct n as [|n]; [reflexivity|].
  now rewrite skipn_map, length_map.
Qed.

(** The snapshot is a function of the value sequence. *)
Lemma computeStats_ext (h1 h2 : list Result) :
  map v h1 = map v h2 -> computeStats h1 = computeStats h2.
Proof.
  intros E. unfold computeStats.
  rewrite !map_lastN, E.
  replace (List.length h1) with (List.length h2); [reflexivity|].
  now rewrite <- (length_map v h2), <- E, length_map.
Qed.

Lemma map_v_historyFrom (values : list ColorKey) (k : nat) :
  map v (historyFrom k values) = values.
Proof.
  revert k. induction values as [|c rest IH]; intros k; simpl; [reflexivity|].
  now rewrite IH.
Qed.

Lemma map_v_historyOf (values : list ColorKey) : map v (historyOf values) = values.
Proof. apply map_v_historyFrom. Qed.

(** *** The alternation loop skips Ties *)

Lemma altStep_filter (seq : list ColorKey) (st : nat * option ColorKey) :
  fold_left altStep (filter nonTie seq) st = fold_left altStep seq st.
Proof.
  revert st. induction seq as [|x rest IH]; intros st; [reflexivity|].
  destruct x; simpl; apply IH.
Qed.

(** *** The current-streak loop *)

Lemma skipn_nth (seq : list ColorKey) (i : nat) :
  i < List.length seq -> skipn i seq = nth i seq T :: skipn (S i) seq.
Proof.
  revert i. induction seq as [|x rest IH]; intros i Hi; simpl in Hi; [lia|].
  destruct i as [|i]; [reflexivity|].
  change (skipn i rest = nth i rest T :: skipn (S i) rest).
  apply IH. lia.
Qed.

Lemma streakInv_post (seq : list ColorKey) (k : nat)
      (cc : option ColorKey) (cs : nat) :
  streakInv seq k cc cs -> streakPost seq (cc, cs).
Proof.
  unfold streakInv, streakPost. destruct cc as [c|]; simpl.
  - intros (Hc & Hs & Hk). repeat split; trivial.
    exists (firstn k seq). now rewrite <- Hk, firstn_skipn.
  - tauto.
Qed.

Lemma streakLoop_post (seq : list ColorKey) (k : nat) :
  forall cc cs,
    k <= List.length seq -> streakInv seq k cc cs ->
    streakPost seq (streakLoop seq k cc cs).
Proof.
  induction k as [|i IH]; intros cc cs Hk Hinv.
  - eapply streakInv_post; eassumption.
  - assert (Hx : skipn i seq = nth i seq T :: skipn (S i) seq)
      by (apply skipn_nth; lia).
    cbn [streakLoop]. remember (nth i seq T) as x eqn:Ex.
    assert (Hstay : streakPost seq (cc, cs))
      by (eapply streakInv_post; eassumption).
    assert (Hgo : x <> T ->
                  streakPost seq
                    match cc with
                    | None => streakLoop seq i (Some x) 1
                    | Some c => if ColorKey_eqb x c
                                then streakLoop seq i cc (S cs) else (cc, cs)
                    end).
    { intros HxT. destruct cc as [c|].
      - destruct (ColorKey_eqb x c) eqn:E; [|exact Hstay].
        apply ColorKey_eqb_eq in E. subst c.
        apply IH; [lia|]. destruct Hinv as (Hc & Hs & Hsk).
        repeat split; trivial; [lia|]. now rewrite Hx, Hsk.
      - apply IH; [lia|]. destruct Hinv as (Hs & Hlen).
        repeat split; trivial. rewrite Hx, Hlen, skipn_all. reflexivity. }
    destruct x; [apply Hgo; discriminate | apply Hgo; discriminate | exact Hstay].
Qed.

Lemma streak_post (seq : list ColorKey) :
  streakPost seq (streakLoop seq (List.length seq) None 0).
Proof. apply streakLoop_post; [lia | now split]. Qed.

(** *** The longest-streak loop *)

Lemma get_set (m : PerColor) (c d : ColorKey) (n : nat) :
  get (set m c n) d = if ColorKey_eqb c d then n else get m d.
Proof. now destruct c, d. Qed.

Lemma get_flushLongest (st : PerColor * option ColorKey * nat) (c : ColorKey) :
  get (flushLongest (fst (fst st)) (snd (fst st)) (snd st)) c = runBound st c.
Proof.
  destruct st as [[lg [d|]] rl]; simpl.
  - rewrite get_set. destruct (ColorKey_eqb d c) eqn:E.
    + apply ColorKey_eqb_eq in E. now subst d.
    + lia.
  - lia.
Qed.

Lemma longestOf_runBound (seq : list ColorKey) (c : ColorKey) :
  get (longestOf seq) c
  = runBound (fold_left longestStep seq (zeroPerColor, None, 0)) c.
Proof.
  unfold longestOf. rewrite <- get_flushLongest.
  now destruct (fold_left longestStep seq (zeroPerColor, None, 0)) as [[lg rc] rl].
Qed.

Lemma longestStep_mono (st : PerColor * option ColorKey * nat) (x c : ColorKey) :
  runBound st c <= runBound (longestStep st x) c.
Proof.
  destruct st as [[lg rc] rl]. unfold longestStep.
  destruct (same rc x) eqn:E.
  - simpl. destruct (same rc c); lia.
  - change (runBound (lg, rc, rl) c
            <= Nat.max (get (flushLongest lg rc rl) c) (if same (Some x) c then 1 else 0)).
    pose proof (get_flushLongest (lg, rc, rl) c) as G. cbn [fst snd] in G.
    rewrite G. lia.
Qed.

Lemma longest_fold_mono (seq : list ColorKey) (c : ColorKey) :
  forall st, runBound st c <= runBound (fold_left longestStep seq st) c.
Proof.
  induction seq as [|x rest IH]; intros st; simpl; [lia|].
  etransitivity; [apply longestStep_mono | apply IH].
Qed.

Lemma longest_fold_run (c : ColorKey) (n : nat) :
  forall lg rl,
    fold_left longestStep (repeat c n) (lg, Some c, rl) = (lg, Some c, rl + n).
Proof.
  induction n as [|n IH]; intros lg rl; simpl.
  - f_equal. lia.
  - rewrite ColorKey_eqb_refl, IH. f_equal. lia.
Qed.

Lemma longestStep_shape (st : PerColor * option ColorKey * nat) (c : ColorKey) :
  exists lg rl, longestStep st c = (lg, Some c, S rl).
Proof.
  destruct st as [[lg rc] rl]. unfold longestStep.
  destruct (same rc c) eqn:E.
  - destruct rc as [d|]; [|discriminate]. apply ColorKey_eqb_eq in E. subst d.
    now exists lg, rl.
  - now exists (flushLongest lg rc rl), 0.
Qed.

Lemma longest_after_run (c : ColorKey) (n : nat) (st : PerColor * option ColorKey * nat) :
  n <= runBound (fold_left longestStep (repeat c n) st) c.
Proof.
  destruct n as [|n]; [lia|].
  change (fold_left longestStep (repeat c (S n)) st)
    with (fold_left longestStep (repeat c n) (longestStep st c)).
  destruct (longestStep_shape st c) as (lg & rl & ->).
  rewrite longest_fold_run. simpl. rewrite ColorKey_eqb_refl. lia.
Qed.

(** Any block of [n] consecutive [c]s is counted. *)
Lemma longestOf_block (pre post : list ColorKey) (c : ColorKey) (n : nat) :
  n <= get (longestOf (pre ++ repeat c n ++ post)) c.
Proof.
  rewrite longestOf_runBound, !fold_left_app.
  etransitivity; [|apply longest_fold_mono]. apply longest_after_run.
Qed.

(** *** The zebra loop *)

Lemma zebraOf_fst (seq : list ColorKey) :
  zebraOf seq = fst (fst (fold_left zebraStep seq (0, 0, None))).
Proof.
  unfold zebraOf.
  now destruct (fold_left zebraStep seq (0, 0, None)) as [[zm zc] lc].
Qed.

Lemma zebraStep_below (n : nat) (st : nat * nat * option ColorKey) (x : ColorKey) :
  zebraBelow n st -> zebraBelow (S n) (zebraStep st x).
Proof.
  destruct st as [[zm zc] lc]. unfold zebraBelow. simpl. intros [Hm Hc].
  destruct x, lc as [[]|]; simpl; lia.
Qed.

Lemma zebra_fold_below (seq : list ColorKey) :
  forall n st,
    zebraBelow n st ->
    zebraBelow (n + List.length seq) (fold_left zebraStep seq st).
Proof.
  induction seq as [|x rest IH]; intros n st H; simpl.
  - now rewrite Nat.add_0_r.
  - replace (n + S (List.length rest)) with (S n + List.length rest) by lia.
    apply IH. now apply zebraStep_below.
Qed.

Lemma zebraStep_last (st : nat * nat * option ColorKey) (x : ColorKey) :
  snd (zebraStep st x) = match x with T => None | _ => Some x end.
Proof. destruct st as [[zm zc] lc]. now destruct x. Qed.

Lemma zebra_fold_flat (seq : list ColorKey) :
  forall st,
    altPairFrom (snd st) seq = false ->
    zebraBelow 1 st -> zebraBelow 1 (fold_left zebraStep seq st).
Proof.
  induction seq as [|x rest IH]; intros st Hp Hb; simpl; [exact Hb|].
  simpl in Hp. apply orb_false_iff in Hp. destruct Hp as [Hd Hrest].
  apply IH.
  - now rewrite zebraStep_last.
  - destruct st as [[zm zc] lc]. unfold zebraBelow in *. simpl in *.
    destruct Hb as [Hm Hc].
    destruct x, lc as [[]|]; simpl in *; try discriminate; lia.
Qed.

Lemma zebra_fold_mono (seq : list ColorKey) :
  forall st, fst (fst st) <= fst (fst (fold_left zebraStep seq st)).
Proof.
  induction seq as [|x rest IH]; intros st; simpl; [lia|].
  etransitivity; [|apply IH].
  destruct st as [[zm zc] lc]. destruct x; simpl; lia.
Qed.

Lemma zebra_fold_ties (seq : list ColorKey) :
  filter nonTie seq = [] ->
  fold_left zebraStep seq (0, 0, None) = (0, 0, None).
Proof.
  induction seq as [|x rest IH]; intros H; [reflexivity|].
  destruct x; simpl in H; try discriminate. simpl. now apply IH.
Qed.

Lemma zebra_fold_pos (seq : list ColorKey) :
  forall st,
    filter nonTie seq <> [] -> 1 <= fst (fst (fold_left zebraStep seq st)).
Proof.
  induction seq as [|x rest IH]; intros st H; [now elim H|].
  assert (Hx : x <> T -> 1 <= fst (fst (fold_left zebraStep (x :: rest) st))).
  { intros Hx. simpl. etransitivity; [|apply zebra_fold_mono].
    destruct st as [[zm zc] lc].
    destruct x, lc as [[]|]; try contradiction; simpl; lia. }
  destruct x; [apply Hx; discriminate | apply Hx; discriminate |].
  simpl. apply IH. exact H.
Qed.

(** *** Zebras of length two, decided *)

Lemma altPair_decompose (seq : list ColorKey) :
  forall last,
    last <> Some T -> altPairFrom last seq = true ->
    exists pre a b post,
      match last with Some c => [c] | None => [] end ++ seq = pre ++ [a; b] ++ post
      /\ a <> T /\ b <> T /\ a <> b.
Proof.
  induction seq as [|x rest IH]; intros last HT H; [discriminate|].
  simpl in H. apply orb_true_iff in H. destruct H as [H|H].
  - apply andb_true_iff in H. destruct H as [Hd Hx].
    destruct last as [c|]; [|discriminate].
    exists [], c, x, rest. repeat split.
    + congruence.
    + intros ->. discriminate.
    + intros ->. simpl in Hd. now rewrite ColorKey_eqb_refl in Hd.
  - assert (Hn : match x with T => None | _ => Some x end <> Some T)
      by (destruct x; congruence).
    destruct (IH _ Hn H) as (pre & a & b & post & E & Hab).
    exists (match last with Some c => [c] | None => [] end
            ++ match x with T => [T] | _ => [] end ++ pre), a, b, post.
    split; [|exact Hab].
    rewrite <- !app_assoc. f_equal.
    destruct x; simpl in *; now rewrite <- E.
Qed.

Lemma altPair_found (a b : ColorKey) (rest pre : list ColorKey) :
  a <> T -> b <> T -> a <> b ->
  forall last, altPairFrom last (pre ++ a :: b :: rest) = true.
Proof.
  intros Ha Hb Hab. induction pre as [|x pre IH]; intros last.
  - destruct a, b; try congruence; simpl; now rewrite orb_true_r.
  - simpl. rewrite IH. apply orb_true_r.
Qed.

Lemma fewerThanTwoZebra_iff (seq : list ColorKey) :
  fewerThanTwoZebra seq <-> altPairFrom None seq = false.
Proof.
  split.
  - intros H. destruct (altPairFrom None seq) eqn:E; [|reflexivity].
    apply altPair_decompose in E; [|discriminate].
    destruct E as (pre & a & b & post & E & Ha & Hb & Hab).
    assert (L : List.length [a; b] < 2).
    { apply (H pre [a; b] post E). split.
      - repeat constructor; assumption.
      - intros [|[|i]] x y Hx Hy; simpl in *; congruence. }
    simpl in L. lia.
  - intros H pre seg post E [Hall Hadj].
    destruct seg as [|a [|b seg]]; simpl; try lia.
    exfalso. subst seq.
    change ((a :: b :: seg) ++ post) with (a :: b :: seg ++ post) in H.
    rewrite (altPair_found (seg ++ post) pre) in H; [discriminate| | |].
    + now inversion Hall.
    + inversion Hall as [|? ? _ Hrest]. now inversion Hrest.
    + now apply (Hadj 0).
Qed.

End StatsFacts.

(** ** Scenarios of the specification, run on the model *)

Section Scenarios.
Import Stats Spec.

Example zebra_scenario :
  zebraMax (computeStats (historyOf [R; B; R; B; R])) = 5
  /\ alternations (computeStats (historyOf [R; B; R; B; R])) = 4.
Proof. split; reflexivity. Qed.

Example short_window :
  last20 (computeStats (historyOf [R; B; T; R; R])) = mkPerColor 3 1 1.
Proof. reflexivity. Qed.

Example empty_history :
  computeStats []
  = mkSnapshot 0 0 0 None zeroPerColor (mkDist zeroBuckets zeroBuckets) zeroPerColor 0.
Proof. reflexivity. Qed.

Example parse_with_noise : Parser.parseBulk "R B X R T" = [R; B; R; T].
Proof. reflexivity. Qed.

End Scenarios.

(** ** The claims on the statistics engine *)

Section StatsClaims.
Import Stats Spec Inv.

(** C1, as the specification words it, fails: on the scenario history
    [R,R,R,B,B,T,R] the snapshot does not have [alternations = 1]. *)
Lemma C1_scenario_as_stated_fails :
  ~ (let s := computeStats (historyOf scenario) in
     longest s = mkPerColor 3 2 1 /\ currentStreak s = 1
     /\ currentColor s = Some R /\ alternations s = 1).
Proof. vm_compute. intros (_ & _ & _ & H). discriminate. Qed.

(** C1, amended: for every history whose values are [R,R,R,B,B,T,R],
    [computeStats] returns longest streaks R=3, B=2, T=1, current streak 1
    of colour Red, and 2 alternations: the change from Red to Blue and,
    across the skipped Tie, the change from Blue to Red. *)
Theorem C1_scenario (h : list Result) :
  map v h = scenario ->
  let s := computeStats h in
  longest s = mkPerColor 3 2 1 /\ currentStreak s = 1
  /\ currentColor s = Some R /\ alternations s = 2.
Proof.
  intros E.
  rewrite (@computeStats_ext h (historyOf scenario))
    by (now rewrite E, map_v_historyOf).
  vm_compute. auto.
Qed.

Lemma C1_scenario_witness :
  map v (historyOf scenario) = scenario /\
  let s := computeStats (historyOf scenario) in
  longest s = mkPerColor 3 2 1 /\ currentStreak s = 1
  /\ currentColor s = Some R /\ alternations s = 2.
Proof. split; [reflexivity | apply C1_scenario; reflexivity]. Defined.

(** C4, as the specification words it, fails: the history [R] has fewer
    than two consecutive non-Tie outcomes, yet its [zebraMax] is 1. *)
Lemma C4_single_outcome_as_stated_fails :
  ~ (let h := historyOf [R] in
     let s := computeStats h in
     zebraMax s <= total s
     /\ (nonTies h = [] \/ fewerThanTwoZebra (map v h) -> zebraMax s = 0)).
Proof.
  intros [_ H].
  assert (F : fewerThanTwoZebra (map v (historyOf [R])))
    by (apply fewerThanTwoZebra_iff; reflexivity).
  specialize (H (or_intror F)). vm_compute in H. discriminate.
Qed.

(** C4, amended: for every history, [zebraMax <= total]; [zebraMax = 0]
    exactly when the history has no non-Tie outcome; and a history that
    has a non-Tie outcome but fewer than 2 consecutive non-Tie outcomes
    without an intervening repeat has [zebraMax = 1]: the zebra counter
    counts outcomes, a lone non-Tie outcome being a zebra of length 1. *)
Theorem C4_zebra_bounds (h : list Result) :
  let s := computeStats h in
  zebraMax s <= total s
  /\ (zebraMax s = 0 <-> nonTies h = [])
  /\ (fewerThanTwoZebra (map v h) -> nonTies h <> [] -> zebraMax s = 1).
Proof.
  cbn zeta. unfold nonTies.
  change (zebraMax (computeStats h)) with (zebraOf (map v h)).
  change (total (computeStats h)) with (List.length h).
  rewrite zebraOf_fst. repeat split.
  - rewrite <- (length_map v h).
    apply (@zebra_fold_below (map v h) 0 (0, 0, None)). split; simpl; lia.
  - intros Z. destruct (filter nonTie (map v h)) eqn:E; [reflexivity|].
    assert (P := @zebra_fold_pos (map v h) (0, 0, None)).
    rewrite E in P. specialize (P ltac:(discriminate)). lia.
  - intros E. now rewrite zebra_fold_ties.
  - intros F N. apply fewerThanTwoZebra_iff in F.
    assert (P := @zebra_fold_pos (map v h) (0, 0, None) N).
    assert (Q : zebraBelow 1 (fold_left zebraStep (map v h) (0, 0, None)))
      by (apply zebra_fold_flat; [exact F | split; simpl; lia]).
    destruct Q as [Q _]. lia.
Qed.

Lemma C4_zebra_bounds_witness :
  fewerThanTwoZebra (map v (historyOf [R; R; T; B]))
  /\ nonTies (historyOf [R; R; T; B]) <> []
  /\ zebraMax (computeStats (historyOf [R; R; T; B])) = 1.
Proof.
  assert (F : fewerThanTwoZebra (map v (historyOf [R; R; T; B])))
    by (apply fewerThanTwoZebra_iff; reflexivity).
  assert (N : nonTies (historyOf [R; R; T; B]) <> [])
    by (vm_compute; discriminate).
  split; [exact F | split; [exact N |]].
  exact (proj2 (proj2 (C4_zebra_bounds (historyOf [R; R; T; B]))) F N).
Defined.

(** C5: for every history, [0 <= currentStreak <= total], and
    [currentColor] is [null] if and only if [currentStreak = 0]. *)
Theorem C5_current_streak_bounds (h : list Result) :
  let s := computeStats h in
  0 <= currentStreak s <= total s
  /\ (currentColor s = None <-> currentStreak s = 0).
Proof.
  cbn zeta. pose proof (streak_post (map v h)) as P.
  unfold streakPost in P.
  change (currentStreak (computeStats h))
    with (snd (streakLoop (map v h) (List.length (map v h)) None 0)).
  change (currentColor (computeStats h))
    with (fst (streakLoop (map v h) (List.length (map v h)) None 0)).
  change (total (computeStats h)) with (List.length h).
  destruct (streakLoop (map v h) (List.length (map v h)) None 0) as [cc cs].
  simpl in *. destruct cc as [c|].
  - destruct P as (_ & Hs & pre & E).
    apply (f_equal (@List.length ColorKey)) in E.
    rewrite length_map, length_app, repeat_length in E.
    split; [lia|]. split; [discriminate | lia].
  - subst cs. split; [lia|]. split; reflexivity.
Qed.

(** C6: for every history and every colour [c], if [currentColor] is [c]
    then [longest[c] >= currentStreak]. *)
Theorem C6_longest_covers_current (h : list Result) (c : ColorKey) :
  currentColor (computeStats h) = Some c ->
  currentStreak (computeStats h) <= get (longest (computeStats h)) c.
Proof.
  pose proof (streak_post (map v h)) as P. unfold streakPost in P.
  change (currentStreak (computeStats h))
    with (snd (streakLoop (map v h) (List.length (map v h)) None 0)).
  change (currentColor (computeStats h))
    with (fst (streakLoop (map v h) (List.length (map v h)) None 0)).
  change (longest (computeStats h)) with (longestOf (map v h)).
  destruct (streakLoop (map v h) (List.length (map v h)) None 0) as [cc cs].
  simpl in *. intros ->. destruct P as (_ & _ & pre & ->).
  rewrite <- (app_nil_r (repeat c cs)). apply longestOf_block.
Qed.

Lemma C6_longest_covers_current_witness :
  currentColor (computeStats (historyOf [B; R; R; T; B; B; B])) = Some B
  /\ currentStreak (computeStats (historyOf [B; R; R; T; B; B; B]))
     <= get (longest (computeStats (historyOf [B; R; R; T; B; B; B]))) B.
Proof.
  split; [reflexivity|].
  apply (@C6_longest_covers_current (historyOf [B; R; R; T; B; B; B]) B).
  reflexivity.
Defined.

(** C7: two histories with the same subsequence of non-Tie values have
    equal alternation counts, so inserting or removing Ties anywhere
    leaves the count unchanged. *)
Theorem C7_alternations_ignore_ties (h1 h2 : list Result) :
  nonTies h1 = nonTies h2 ->
  alternations (computeStats h1) = alternations (computeStats h2).
Proof.
  unfold nonTies. intros E.
  change (fst (fold_left altStep (map v h1) (0, None))
          = fst (fold_left altStep (map v h2) (0, None))).
  now rewrite <- (altStep_filter (map v h1)), <- (altStep_filter (map v h2)), E.
Qed.

Lemma C7_alternations_ignore_ties_witness :
  nonTies (historyOf [R; T; B; R]) = nonTies (historyOf [T; R; B; T; T; R; T])
  /\ alternations (computeStats (historyOf [R; T; B; R]))
     = alternations (computeStats (historyOf [T; R; B; T; T; R; T])).
Proof.
  split; [reflexivity|].
  apply C7_alternations_ignore_ties. reflexivity.
Defined.

(** C10: two histories of equal length whose values agree position by
    position get identical snapshots, whatever their ids and timestamps. *)
Theorem C10_stats_depend_on_values_only (h1 h2 : list Result) :
  Forall2 (fun r1 r2 => v r1 = v r2) h1 h2 ->
  computeStats h1 = computeStats h2.
Proof.
  intros F. apply computeStats_ext.
  induction F as [|r1 r2 t1 t2 Hv _ IH]; simpl; [reflexivity|].
  now rewrite Hv, IH.
Qed.

Lemma C10_stats_depend_on_values_only_witness :
  Forall2 (fun r1 r2 => v r1 = v r2)
          (historyOf [R; B; T])
          [mkResult JNull R (JBool true);
           outcome "b" B 17%float;
           mkResult (JArr []) T (JStr "yesterday")]
  /\ computeStats (historyOf [R; B; T])
     = computeStats [mkResult JNull R (JBool true);
                     outcome "b" B 17%float;
                     mkResult (JArr []) T (JStr "yesterday")].
Proof.
  split; [repeat constructor|].
  apply C10_stats_depend_on_values_only.
  repeat constructor.
Defined.

End StatsClaims.

(** ** The claims on the bulk parser *)

Section ParserClaims.
Import Parser Spec.

Lemma append_snoc (cur rest : string) (c : ascii) :
  ((cur ++ String c EmptyString) ++ rest)%string = (cur ++ String c rest)%string.
Proof. induction cur as [|d cur IH]; simpl; [reflexivity | now rewrite IH]. Qed.

Lemma append_empty (s : string) : (s ++ "")%string = s.
Proof. induction s as [|c s IH]; simpl; [reflexivity | now rewrite IH]. Qed.

(** Without a separator character the text is one piece. *)
Lemma splitFrom_one_piece (s : string) :
  forall cur,
    allChars (fun c => negb (isSplitChar c)) s = true ->
    splitFrom false cur s = [(cur ++ s)%string].
Proof.
  induction s as [|c s IH]; intros cur H; simpl.
  - now rewrite append_empty.
  - simpl in H. apply andb_true_iff in H. destruct H as [Hc Hs].
    apply negb_true_iff in Hc. rewrite Hc, IH by exact Hs.
    now rewrite append_snoc.
Qed.

Lemma tokens_one_piece (text : string) :
  allChars wordChar text = true -> tokens text = [toUpperCase text].
Proof.
  intros H. unfold tokens, split.
  assert (E : clean (toUpperCase text) = toUpperCase text
              /\ allChars (fun c => negb (isSplitChar c)) (toUpperCase text) = true).
  { induction text as [|c text IH]; simpl; [now split|].
    simpl in H. apply andb_true_iff in H. destruct H as [Hc Ht].
    unfold wordChar in Hc. apply andb_true_iff in Hc. destruct Hc as [Hk Hn].
    destruct (IH Ht) as [IH1 IH2]. now rewrite Hk, IH1, Hn, IH2. }
  destruct E as [-> E]. now rewrite splitFrom_one_piece.
Qed.

Lemma mapToken_words (t : string) (c : ColorKey) :
  mapToken t = Some c <->
  (c = R /\ (t = "R" \/ t = "RED"))%string
  \/ (c = B /\ (t = "B" \/ t = "BLUE"))%string
  \/ (c = T /\ (t = "T" \/ t = "TIE"))%string.
Proof.
  unfold mapToken. simpl existsb. split.
  - repeat match goal with
           | |- context [String.eqb t ?w] => destruct (String.eqb_spec t w)
           end; simpl; intros E; inversion E; subst; tauto.
  - intros [[-> [-> | ->]] | [[-> [-> | ->]] | [-> [-> | ->]]]]; reflexivity.
Qed.

(** C3: the parser does not split on hyphens. On ["R-B"] the text is a
    single token, which is no recognised word, so nothing is parsed; the
    hyphen is kept by the cleaning step but is outside the class of the
    split step, whose [\\-|] is the range from backslash to pipe. *)
Theorem C3_hyphen_does_not_split :
  isKept "-" = true /\ isSplitChar "-" = false
  /\ tokens "R-B" = ["R-B"%string] /\ parseBulk "R-B" = []
  /\ parseBulk "R,B,T" = [R; B; T] /\ parseBulk "r b t" = [R; B; T]
  /\ parseBulk " R - B | T " = [R; B; T].
Proof. repeat split. Qed.

(** C9: only whole tokens are matched. A token yields an outcome exactly
    when it is [R], [RED], [B], [BLUE], [T] or [TIE]; a text made of word
    letters and hyphens only, in either case, is a single token, so it
    parses to one outcome when its upper-case form is one of the six
    words and to nothing otherwise; in particular ["RB"], ["RR"] and
    ["REDBLUE"] parse to the empty sequence. *)
Theorem C9_whole_tokens_only :
  (forall t c,
      mapToken t = Some c <->
      (c = R /\ (t = "R" \/ t = "RED"))%string
      \/ (c = B /\ (t = "B" \/ t = "BLUE"))%string
      \/ (c = T /\ (t = "T" \/ t = "TIE"))%string)
  /\ (forall text,
        allChars wordChar text = true ->
        tokens text = [toUpperCase text]
        /\ parseBulk text
           = match mapToken (toUpperCase text) with Some c => [c] | None => [] end)
  /\ parseBulk "RB" = [] /\ parseBulk "RR" = [] /\ parseBulk "REDBLUE" = [].
Proof.
  split; [exact mapToken_words|]. split; [|repeat split].
  intros text H. split; [now apply tokens_one_piece|].
  unfold parseBulk. rewrite tokens_one_piece by exact H. simpl.
  now destruct (mapToken (toUpperCase text)).
Qed.

Lemma C9_whole_tokens_only_witness :
  allChars wordChar "redBlue" = true
  /\ tokens "redBlue" = ["REDBLUE"%string]
  /\ parseBulk "redBlue" = [].
Proof.
  split; [reflexivity|].
  exact (proj1 (proj2 C9_whole_tokens_only) "redBlue"%string eq_refl).
Defined.

End ParserClaims.

(** ** The claims on the signal evaluator *)

Section SignalClaims.
Import Stats Signals Spec.

Lemma biasTable_ok : biasTable = true.
Proof. vm_compute. reflexivity. Qed.

(** Within a window of at most 20 outcomes the double division decides the
    comparison of the exact fraction with six tenths. *)
Lemma bias_exact (r t : nat) :
  0 < t -> t <= 20 -> r <= t ->
  geSixTenths (PrimFloat.div (num r) (num t)) = (3 * t <=? 5 * r).
Proof.
  intros H0 H20 Hr. pose proof biasTable_ok as K. unfold biasTable in K.
  rewrite forallb_forall in K.
  assert (Ht : In t (seq 1 20)) by (apply in_seq; lia).
  specialize (K t Ht). rewrite forallb_forall in K.
  assert (Hin : In r (seq 0 (S t))) by (apply in_seq; lia).
  specialize (K r Hin). now apply eqb_prop in K.
Qed.

Lemma countStep_total (l : list ColorKey) :
  forall m, sum3 (fold_left countStep l m) = sum3 m + List.length l.
Proof.
  induction l as [|x rest IH]; intros m; simpl; [lia|].
  rewrite IH. destruct m as [r b t]. destruct x; unfold sum3; simpl; lia.
Qed.

Lemma total20_computeStats (h : list Result) :
  total20 (computeStats h) = Nat.min 20 (List.length h).
Proof.
  change (total20 (computeStats h))
    with (sum3 (fold_left countStep (map v (lastN h 20)) zeroPerColor)).
  rewrite countStep_total, length_map. unfold lastN.
  rewrite length_skipn. change (sum3 zeroPerColor) with 0. lia.
Qed.

Lemma bias_trigger (stats : Snapshot) (r : nat) :
  total20 stats <= 20 -> r <= total20 stats ->
  geSixTenths (if 0 <? total20 stats
               then PrimFloat.div (num r) (num (total20 stats)) else 0%float) = true
  <-> 0 < total20 stats /\ 3 * total20 stats <= 5 * r.
Proof.
  intros H20 Hr. destruct (0 <? total20 stats) eqn:E.
  - apply Nat.ltb_lt in E. rewrite bias_exact by assumption.
    rewrite Nat.leb_le. tauto.
  - apply Nat.ltb_ge in E. split; [discriminate | lia].
Qed.

(** C2: the signal derivation returns exactly four signals, in the order
    zebra, long streak, recent bias, frequent ties, whatever the snapshot.
    Zebra is on iff [zebraMax >= 5]; long streak iff the longest Red or Blue
    streak is at least 5; bias iff the red or the blue ratio is at least
    0.6, both ratios being 0 when the window is empty, and, for a window of
    at most 20 outcomes, a ratio is at least 0.6 exactly when the window is
    not empty and the colour holds at least six tenths of it; ties iff the
    window has at least 3 Ties. Every snapshot of [computeStats] has a
    window of at most 20 outcomes. *)
Theorem C2_four_signals :
  (forall stats : Snapshot,
      exists z s b t,
        signals stats = [z; s; b; t]
        /\ (Signals.id z, Signals.id s, Signals.id b, Signals.id t)
           = ("zebra", "streaklong", "bias", "ties")%string
        /\ (on z = true <-> 5 <= zebraMax stats)
        /\ (on s = true <-> 5 <= atR (longest stats) \/ 5 <= atB (longest stats))
        /\ (on b = true <->
            geSixTenths (redBias stats) = true \/ geSixTenths (blueBias stats) = true)
        /\ (on t = true <-> 3 <= atT (last20 stats))
        /\ (total20 stats = 0 -> redBias stats = 0%float /\ blueBias stats = 0%float)
        /\ (total20 stats <= 20 ->
            (geSixTenths (redBias stats) = true <->
             0 < total20 stats /\ 3 * total20 stats <= 5 * atR (last20 stats))
            /\ (geSixTenths (blueBias stats) = true <->
                0 < total20 stats /\ 3 * total20 stats <= 5 * atB (last20 stats))))
  /\ (forall h : list Result, total20 (computeStats h) <= 20).
Proof.
  split.
  - intros stats. do 4 eexists. split; [reflexivity|]. cbn [Signals.id on].
    split; [reflexivity|].
    split; [apply Nat.leb_le|].
    split; [rewrite orb_true_iff, !Nat.leb_le; tauto|].
    split; [apply orb_true_iff|].
    split; [apply Nat.leb_le|].
    split.
    + intros Z. unfold redBias, blueBias. now rewrite Z.
    + intros H20. split; apply bias_trigger; trivial; unfold total20; lia.
  - intros h. rewrite total20_computeStats. lia.
Qed.

Lemma C2_four_signals_witness :
  let stats := computeStats (historyOf [R; B; R; B; R]) in
  total20 stats <= 20
  /\ map on (signals stats) = [true; false; true; false]
  /\ (geSixTenths (redBias stats) = true <->
      0 < total20 stats /\ 3 * total20 stats <= 5 * atR (last20 stats)).
Proof.
  cbn zeta.
  assert (H20 : total20 (computeStats (historyOf [R; B; R; B; R])) <= 20)
    by (vm_compute; lia).
  split; [exact H20|]. split; [reflexivity|].
  destruct (proj1 C2_four_signals (computeStats (historyOf [R; B; R; B; R])))
    as (z & s & b & t & _ & _ & _ & _ & _ & _ & _ & K).
  exact (proj1 (K H20)).
Defined.

End SignalClaims.

(** ** The claim on the import *)

Section ImportClaims.
Import Tracker Spec.

Lemma tagOf_tagString (s : string) (c : ColorKey) :
  tagOf (Some (JStr s)) = Some c <-> s = tagString c.
Proof.
  unfold tagOf. split.
  - repeat match goal with
           | |- context [String.eqb s ?w] => destruct (String.eqb_spec s w)
           end; intros E; inversion E; subst; reflexivity.
  - intros ->. now destruct c.
Qed.

Lemma keepRecord_valid (r : Json) :
  keepRecord r = true -> validRecord r (asColorKey (member r "v")).
Proof.
  unfold keepRecord, includesTag, asColorKey, validRecord.
  intros H. apply andb_true_iff in H. destruct H as [_ H].
  destruct r as [| | | | |props]; try discriminate. simpl in *.
  exists props. split; [reflexivity|].
  destruct (lookup "v" props) as [[| | |s| |]|] eqn:E; try discriminate.
  destruct (tagOf (Some (JStr s))) as [c|] eqn:Ec; [|discriminate].
  apply tagOf_tagString in Ec. now subst s.
Qed.

Lemma keepRecord_invalid (r : Json) :
  keepRecord r = false -> forall c, ~ validRecord r c.
Proof.
  intros H c (props & -> & Hv).
  unfold keepRecord, includesTag in H. simpl in H. rewrite Hv in H.
  now rewrite (proj2 (tagOf_tagString (tagString c) c) eq_refl) in H.
Qed.

Lemma later_refl (w : World) : later w w.
Proof. unfold later. repeat split; lia. Qed.

Lemma orElse_kept (x : option Json) (alt : M Json) (w : World) :
  truthy x = true -> exists j, x = Some j /\ orElse x alt w = (j, w).
Proof.
  intros H. destruct x as [j|]; [|discriminate].
  exists j. split; [reflexivity|]. unfold orElse. now rewrite H.
Qed.

Lemma orElse_missing (x : option Json) (alt : M Json) (w : World) :
  truthy x = false -> orElse x alt w = alt w.
Proof.
  intros H. unfold orElse. destruct x as [j|]; [now rewrite H | reflexivity].
Qed.

(** One kept record: what it becomes and what it costs. *)
Lemma stampRecord_backfills (w0 w : World) (r : Json) :
  rng w = rng w0 -> clock w = clock w0 ->
  exists u1 n1,
    idBackfilled w0 (uidCalls w) (nowCalls w) r (fst (stampRecord r w)) u1 n1
    /\ tsBackfilled w0 n1 r (fst (stampRecord r w)) (nowCalls (snd (stampRecord r w)))
    /\ uidCalls (snd (stampRecord r w)) = u1
    /\ rng (snd (stampRecord r w)) = rng w0
    /\ clock (snd (stampRecord r w)) = clock w0
    /\ v (fst (stampRecord r w)) = asColorKey (member r "v").
Proof.
  intros Hr Hc. unfold idBackfilled, tsBackfilled, stampRecord, bind.
  destruct (truthy (member r "id")) eqn:Ei.
  - destruct (@orElse_kept _ uid w Ei) as (i & Emi & ->).
    destruct (truthy (member r "ts")) eqn:Et.
    + destruct (@orElse_kept _ dateNow w Et) as (t & Emt & ->).
      exists (uidCalls w), (nowCalls w). cbn [ret fst snd id ts v].
      rewrite Emi, Emt. now repeat split.
    + rewrite (@orElse_missing _ dateNow w Et).
      exists (uidCalls w), (nowCalls w).
      cbn [dateNow ret fst snd id ts v nowCalls uidCalls rng clock].
      rewrite Emi, Hc. now repeat split.
  - rewrite (@orElse_missing _ uid w Ei). cbn [uid].
    set (w1 := mkWorld (rng w) (clock w) (S (uidCalls w)) (S (nowCalls w))).
    destruct (truthy (member r "ts")) eqn:Et.
    + destruct (@orElse_kept _ dateNow w1 Et) as (t & Emt & ->).
      exists (S (uidCalls w)), (S (nowCalls w)).
      cbn [ret fst snd id ts v w1 nowCalls uidCalls rng clock].
      rewrite Emt, Hr. now repeat split.
    + rewrite (@orElse_missing _ dateNow w1 Et).
      exists (S (uidCalls w)), (S (nowCalls w)).
      cbn [dateNow ret fst snd id ts v w1 nowCalls uidCalls rng clock].
      rewrite Hr, Hc. now repeat split.
Qed.

Lemma mapM_imports (w0 : World) (items : list Json) :
  forall w,
    rng w = rng w0 -> clock w = clock w0 ->
    imports w0 (uidCalls w) (nowCalls w) items
            (fst (mapM stampRecord (filter keepRecord items) w))
            (uidCalls (snd (mapM stampRecord (filter keepRecord items) w)))
            (nowCalls (snd (mapM stampRecord (filter keepRecord items) w)))
    /\ rng (snd (mapM stampRecord (filter keepRecord items) w)) = rng w0
    /\ clock (snd (mapM stampRecord (filter keepRecord items) w)) = clock w0.
Proof.
  induction items as [|r rest IH]; intros w Hr Hc.
  - simpl. split; [constructor | now split].
  - cbn [filter]. destruct (keepRecord r) eqn:K.
    + destruct (@stampRecord_backfills w0 w r Hr Hc) as (u1 & n1 & Hid & Hts & Hu & Hr1 & Hc1 & Hv).
      assert (E : mapM stampRecord (r :: filter keepRecord rest) w
                  = (fst (stampRecord r w)
                     :: fst (mapM stampRecord (filter keepRecord rest) (snd (stampRecord r w))),
                     snd (mapM stampRecord (filter keepRecord rest) (snd (stampRecord r w))))).
      { cbn [mapM]. unfold bind, ret. destruct (stampRecord r w) as [res w1].
        cbn [fst snd]. now destruct (mapM stampRecord (filter keepRecord rest) w1). }
      rewrite E. cbn [fst snd].
      destruct (IH (snd (stampRecord r w)) Hr1 Hc1) as (I & Hr2 & Hc2).
      split; [|now split].
      rewrite Hu in I.
      eapply imports_keep; [apply keepRecord_valid, K | exact Hv | exact Hid | exact Hts | exact I].
    + destruct (IH w Hr Hc) as (I & Hr2 & Hc2).
      split; [|now split].
      apply imports_drop; [now apply keepRecord_invalid | exact I].
Qed.

(** C8: on import, a payload that is neither an array nor an object with a
    [results] array (or that does not parse) raises an alert and leaves the
    history, and the world, as they were; an array payload replaces the
    history by its records with a recognised value, in order, every other
    record being dropped, without an alert. A kept record keeps its own id
    and timestamp when it has them; otherwise its id is that of the next
    call of [uid()] and its timestamp the next reading of the clock, each
    backfilled value using up one call, so that no two backfilled ids come
    from the same call and the world afterwards has counted exactly the
    calls made. *)
Theorem C8_import_contract (parsed : option Json) (st : App) (w : World) :
  (badShape parsed ->
   history (fst (importJson parsed st w)) = history st
   /\ snd (importJson parsed st w) = w
   /\ exists msg, alerts (fst (importJson parsed st w)) = msg :: alerts st)
  /\ (forall items,
        parsed = Some (JArr items) ->
        imports w (uidCalls w) (nowCalls w) items
                (history (fst (importJson parsed st w)))
                (uidCalls (snd (importJson parsed st w)))
                (nowCalls (snd (importJson parsed st w)))
        /\ rng (snd (importJson parsed st w)) = rng w
        /\ clock (snd (importJson parsed st w)) = clock w
        /\ alerts (fst (importJson parsed st w)) = alerts st).
Proof.
  split.
  - intros Bad. destruct parsed as [[| | | | |props]|]; simpl in *;
      try contradiction; eauto.
    destruct (lookup "results" props) as [[| | | | |]|]; simpl;
      try contradiction; eauto.
  - intros items ->.
    destruct (@mapM_imports w items w eq_refl eq_refl) as (I & Hr & Hc).
    unfold importJson, bind, ret.
    destruct (mapM stampRecord (filter keepRecord items) w) as [valid w1].
    cbn [fst snd history alerts setHistory] in *. now repeat split.
Qed.

Example import_sample :
  history (fst (importJson (Some (JArr sampleItems)) sampleApp sampleWorld))
  = [ mkResult (JStr "uid0") R (JNum 1001);
      mkResult (JStr "k") B (JNum 5);
      mkResult (JStr "uid1") T (JNum 1003) ].
Proof. reflexivity. Qed.

Lemma C8_import_contract_witness :
  (badShape (Some sampleBadPayload)
   /\ history (fst (importJson (Some sampleBadPayload) sampleApp sampleWorld))
      = history sampleApp)
  /\ imports sampleWorld 0 0 sampleItems
             (history (fst (importJson (Some (JArr sampleItems)) sampleApp sampleWorld)))
             2 4.
Proof.
  split.
  - split; [exact I|].
    exact (proj1 (proj1 (C8_import_contract (Some sampleBadPayload)
                                            sampleApp sampleWorld) I)).
  - exact (proj1 (proj2 (C8_import_contract (Some (JArr sampleItems))
                                            sampleApp sampleWorld)
                        sampleItems eq_refl)).
Defined.

(** Two records without an id cannot be given the same id, nor an id of a
    call that is not made: the relation fixes the outcome. *)
Example imports_two_fresh_ids (out : list Result) (u' n' : nat) :
  imports sampleWorld 0 0
          [JObj [("v", JStr "R")]; JObj [("v", JStr "B")]]%string out u' n' ->
  map id out = [JStr "uid0"; JStr "uid1"] /\ u' = 2 /\ n' = 4.
Proof.
  intros H.
  assert (NR : forall c, validRecord (JObj [("v", JStr "R")]%string) c -> c = R).
  { intros c (props & E & L). inversion E; subst. simpl in L. now destruct c. }
  assert (NB : forall c, validRecord (JObj [("v", JStr "B")]%string) c -> c = B).
  { intros c (props & E & L). inversion E; subst. simpl in L. now destruct c. }
  inversion H as [| ? ? ? ? ? ? ? Hno _ | ? ? ? c1 ? r1 out1 u1 n1 n2 ? ? V1 Hv1 Hi1 Ht1 H1]; subst.
  - elim (Hno R). exists [("v", JStr "R")]%string. now split.
  - unfold idBackfilled, tsBackfilled in Hi1, Ht1. simpl in Hi1, Ht1.
    destruct Hi1 as (Ei1 & -> & ->). destruct Ht1 as (_ & ->).
    inversion H1 as [| ? ? ? ? ? ? ? Hno _ | ? ? ? c2 ? r2 out2 u2 m1 m2 ? ? V2 Hv2 Hi2 Ht2 H2]; subst.
    + elim (Hno B). exists [("v", JStr "B")]%string. now split.
    + unfold idBackfilled, tsBackfilled in Hi2, Ht2. simpl in Hi2, Ht2.
      destruct Hi2 as (Ei2 & -> & ->). destruct Ht2 as (_ & ->).
      inversion H2; subst. simpl. now rewrite Ei1, Ei2.
Qed.

End ImportClaims.

(** * Further properties of the statistics engine *)

Section MoreStats.
Import Stats Spec Inv Ref.

Lemma ColorKey_eqb_sym (a b : ColorKey) : ColorKey_eqb a b = ColorKey_eqb b a.
Proof. now destruct a, b. Qed.

Lemma ColorKey_eqb_neq (a b : ColorKey) : ColorKey_eqb a b = false <-> a <> b.
Proof. destruct a, b; simpl; split; congruence. Qed.

(** *** Alternations count the changes of the non-Tie subsequence *)

Lemma altStep_changes (seq : list ColorKey) :
  forall alt c,
    c <> T ->
    fst (fold_left altStep seq (alt, Some c)) = alt + changes (c :: filter nonTie seq).
Proof.
  induction seq as [|x rest IH]; intros alt c Hc; [simpl; lia|].
  destruct x.
  - cbn [fold_left altStep filter nonTie ColorKey_eqb negb differs].
    rewrite IH by discriminate.
    change (changes (c :: R :: filter nonTie rest))
      with ((if ColorKey_eqb c R then 0 else 1) + changes (R :: filter nonTie rest)).
    destruct c; simpl; try lia; contradiction.
  - cbn [fold_left altStep filter nonTie ColorKey_eqb negb differs].
    rewrite IH by discriminate.
    change (changes (c :: B :: filter nonTie rest))
      with ((if ColorKey_eqb c B then 0 else 1) + changes (B :: filter nonTie rest)).
    destruct c; simpl; try lia; contradiction.
  - cbn [fold_left altStep filter nonTie ColorKey_eqb negb]. now apply IH.
Qed.

Lemma altFold_changes (seq : list ColorKey) :
  fst (fold_left altStep seq (0, None)) = changes (filter nonTie seq).
Proof.
  induction seq as [|x rest IH]; [reflexivity|].
  destruct x.
  - cbn [fold_left altStep filter nonTie ColorKey_eqb negb differs].
    now rewrite altStep_changes by discriminate.
  - cbn [fold_left altStep filter nonTie ColorKey_eqb negb differs].
    now rewrite altStep_changes by discriminate.
  - exact IH.
Qed.

(** X1: the alternation count of a history is the number of places where two
    neighbouring outcomes differ once the Ties are taken out. *)
Theorem alternations_are_changes (h : list Result) :
  alternations (computeStats h) = changes (nonTies h).
Proof.
  unfold nonTies.
  change (alternations (computeStats h))
    with (fst (fold_left altStep (map v h) (0, None))).
  apply altFold_changes.
Qed.

(** *** The current streak is the whole trailing run *)

Lemma seq_split_at (seq : list ColorKey) (i : nat) :
  i < List.length seq ->
  seq = (firstn i seq ++ [nth i seq T]) ++ skipn (S i) seq.
Proof.
  intros Hi. rewrite <- app_assoc. simpl.
  rewrite <- skipn_nth by exact Hi. now rewrite firstn_skipn.
Qed.

Lemma streakLoop_run (seq : list ColorKey) (k : nat) :
  forall c m,
    k <= List.length seq -> c <> T -> skipn k seq = repeat c m ->
    fst (streakLoop seq k (Some c) m) = Some c
    /\ m <= snd (streakLoop seq k (Some c) m)
    /\ exists pre,
        seq = pre ++ repeat c (snd (streakLoop seq k (Some c) m))
        /\ (pre = [] \/ exists pre' y, pre = pre' ++ [y] /\ y <> c).
Proof.
  induction k as [|i IH]; intros c m Hk Hc Hs.
  - simpl in *. repeat split; trivial. exists []. split; [exact Hs | now left].
  - assert (Hi : i < List.length seq) by lia.
    pose proof (seq_split_at seq Hi) as E. rewrite Hs in E.
    assert (Stop : nth i seq T <> c ->
                   fst (Some c, m) = Some c /\ m <= snd (Some c, m)
                   /\ exists pre,
                       seq = pre ++ repeat c (snd (Some c, m))
                       /\ (pre = [] \/ exists pre' y, pre = pre' ++ [y] /\ y <> c)).
    { intros Hne. repeat split; trivial. simpl.
      exists (firstn i seq ++ [nth i seq T]). split; [exact E|].
      right. now exists (firstn i seq), (nth i seq T). }
    cbn [streakLoop]. destruct (nth i seq T) eqn:Ex.
    + destruct (ColorKey_eqb R c) eqn:Ec.
      * apply ColorKey_eqb_eq in Ec. subst c.
        destruct (IH R (S m)) as (H1 & H2 & H3); [lia | exact Hc | |].
        { rewrite (skipn_nth seq Hi), Ex, Hs. reflexivity. }
        repeat split; trivial. lia.
      * apply Stop. intros <-. discriminate.
    + destruct (ColorKey_eqb B c) eqn:Ec.
      * apply ColorKey_eqb_eq in Ec. subst c.
        destruct (IH B (S m)) as (H1 & H2 & H3); [lia | exact Hc | |].
        { rewrite (skipn_nth seq Hi), Ex, Hs. reflexivity. }
        repeat split; trivial. lia.
      * apply Stop. intros <-. discriminate.
    + apply Stop. congruence.
Qed.

(** X2: the current streak is the whole trailing run of the history. With
    no current colour the streak is 0 and the history is empty or ends in a
    Tie; otherwise the history ends in exactly [currentStreak] copies of
    [currentColor], a non-Tie, and what comes before is empty or ends in
    another value. *)
Theorem current_streak_is_trailing_run (h : list Result) :
  let s := computeStats h in
  match currentColor s with
  | None =>
      currentStreak s = 0 /\ (h = [] \/ exists pre r, h = pre ++ [r] /\ v r = T)
  | Some c =>
      c <> T /\ 1 <= currentStreak s
      /\ exists pre,
          map v h = pre ++ repeat c (currentStreak s)
          /\ (pre = [] \/ exists pre' y, pre = pre' ++ [y] /\ y <> c)
  end.
Proof.
  cbn zeta.
  change (currentStreak (computeStats h))
    with (snd (streakLoop (map v h) (List.length (map v h)) None 0)).
  change (currentColor (computeStats h))
    with (fst (streakLoop (map v h) (List.length (map v h)) None 0)).
  destruct (map v h) as [|x0 tl] eqn:Eseq.
  - simpl. split; [reflexivity|]. left. now destruct h.
  - rewrite <- Eseq. set (seq := map v h).
    assert (Hlen : List.length seq = S (List.length seq - 1))
      by (unfold seq; rewrite Eseq; simpl; lia).
    rewrite Hlen. set (i := List.length seq - 1) in *.
    assert (Hi : i < List.length seq) by lia.
    pose proof (skipn_nth seq Hi) as Hs.
    rewrite <- Hlen, skipn_all in Hs.
    assert (Go : nth i seq T <> T ->
                 match fst (streakLoop seq i (Some (nth i seq T)) 1) with
                 | None =>
                     snd (streakLoop seq i (Some (nth i seq T)) 1) = 0
                     /\ (h = [] \/ exists pre r, h = pre ++ [r] /\ v r = T)
                 | Some c =>
                     c <> T /\ 1 <= snd (streakLoop seq i (Some (nth i seq T)) 1)
                     /\ exists pre,
                         seq = pre ++ repeat c (snd (streakLoop seq i (Some (nth i seq T)) 1))
                         /\ (pre = [] \/ exists pre' y, pre = pre' ++ [y] /\ y <> c)
                 end).
    { intros Hx.
      destruct (@streakLoop_run seq i (nth i seq T) 1) as (H1 & H2 & H3);
        [lia | exact Hx | |].
      { rewrite (skipn_nth seq Hi), <- Hlen, skipn_all. reflexivity. }
      rewrite H1. auto. }
    cbn [streakLoop]. destruct (nth i seq T) eqn:Ex.
    + apply Go. discriminate.
    + apply Go. discriminate.
    + simpl. split; [reflexivity|]. right.
      pose proof (seq_split_at seq Hi) as E.
      rewrite <- Hlen, skipn_all, app_nil_r, Ex in E.
      unfold seq in E. clear - E.
      destruct (exists_last (l := h)) as (pre & r & ->).
      { intros ->. destruct (firstn i (map v [])); discriminate. }
      exists pre, r. split; [reflexivity|].
      rewrite map_app in E. simpl in E.
      apply app_inj_tail in E. now destruct E.
Qed.

(** *** Appending one outcome *)

Lemma streakLoop_app (seq ys : list ColorKey) (k : nat) :
  forall cc cs,
    k <= List.length seq ->
    streakLoop (seq ++ ys) k cc cs = streakLoop seq k cc cs.
Proof.
  induction k as [|i IH]; intros cc cs Hk; [reflexivity|].
  cbn [streakLoop]. rewrite app_nth1 by lia.
  destruct (nth i seq T); trivial.
  - destruct cc as [c|]; [destruct (ColorKey_eqb R c)|]; trivial; apply IH; lia.
  - destruct cc as [c|]; [destruct (ColorKey_eqb B c)|]; trivial; apply IH; lia.
Qed.

Lemma streakLoop_shift (seq : list ColorKey) (k : nat) :
  forall c m d,
    streakLoop seq k (Some c) (m + d)
    = (Some c, snd (streakLoop seq k (Some c) m) + d).
Proof.
  induction k as [|i IH]; intros c m d; [reflexivity|].
  cbn [streakLoop].
  destruct (nth i seq T); trivial.
  - destruct (ColorKey_eqb R c); trivial. apply (IH c (S m) d).
  - destruct (ColorKey_eqb B c); trivial. apply (IH c (S m) d).
Qed.

Lemma streakLoop_color (seq : list ColorKey) (k : nat) (c : ColorKey) (m : nat) :
  fst (streakLoop seq k (Some c) m) = Some c.
Proof.
  pose proof (streakLoop_shift seq k c m 0) as E.
  rewrite Nat.add_0_r in E. now rewrite E.
Qed.

(** The streak of [seq ++ [x]] for a non-Tie [x], from the streak of [seq]. *)
Lemma streakLoop_snoc (seq : list ColorKey) (x : ColorKey) :
  x <> T ->
  streakLoop seq (List.length seq) (Some x) 1
  = (Some x,
     if same (fst (streakLoop seq (List.length seq) None 0)) x
     then S (snd (streakLoop seq (List.length seq) None 0)) else 1).
Proof.
  intros Hx. destruct (List.length seq) as [|i]; [reflexivity|].
  cbn [streakLoop].
  assert (Go : forall y, y <> T ->
             (if ColorKey_eqb y x then streakLoop seq i (Some x) 2 else (Some x, 1))
             = (Some x,
                if same (fst (streakLoop seq i (Some y) 1)) x
                then S (snd (streakLoop seq i (Some y) 1)) else 1)).
  { intros y Hy. rewrite streakLoop_color. simpl same.
    destruct (ColorKey_eqb y x) eqn:E; [|reflexivity].
    apply ColorKey_eqb_eq in E. subst y.
    change 2 with (1 + 1). rewrite (streakLoop_shift seq i x 1 1). f_equal. lia. }
  destruct (nth i seq T).
  - apply Go. discriminate.
  - apply Go. discriminate.
  - reflexivity.
Qed.

(** X3: appending one record moves the current streak as expected. The
    total grows by one; a Tie ends the streak (no colour, length 0); a Red or
    Blue outcome makes its colour current, and the streak is one more than
    before when the colour was current already, and 1 otherwise. *)
Theorem append_moves_streak (h : list Result) (r : Result) :
  let s := computeStats h in
  let s' := computeStats (h ++ [r]) in
  total s' = S (total s)
  /\ (v r = T -> currentColor s' = None /\ currentStreak s' = 0)
  /\ (v r <> T ->
      currentColor s' = Some (v r)
      /\ currentStreak s'
         = if same (currentColor s) (v r) then S (currentStreak s) else 1).
Proof.
  cbn zeta.
  change (total (computeStats (h ++ [r]))) with (List.length (h ++ [r])).
  change (total (computeStats h)) with (List.length h).
  change (currentStreak (computeStats h))
    with (snd (streakLoop (map v h) (List.length (map v h)) None 0)).
  change (currentColor (computeStats h))
    with (fst (streakLoop (map v h) (List.length (map v h)) None 0)).
  change (currentStreak (computeStats (h ++ [r])))
    with (snd (streakLoop (map v (h ++ [r])) (List.length (map v (h ++ [r]))) None 0)).
  change (currentColor (computeStats (h ++ [r])))
    with (fst (streakLoop (map v (h ++ [r])) (List.length (map v (h ++ [r]))) None 0)).
  rewrite map_app, !length_app. simpl map. simpl List.length.
  rewrite !Nat.add_1_r. split; [reflexivity|].
  cbn [streakLoop]. rewrite nth_middle.
  split.
  - intros ->. now split.
  - intros Hx.
    assert (E : streakLoop (map v h ++ [v r]) (List.length (map v h)) (Some (v r)) 1
                = (Some (v r),
                   if same (fst (streakLoop (map v h) (List.length (map v h)) None 0)) (v r)
                   then S (snd (streakLoop (map v h) (List.length (map v h)) None 0))
                   else 1)).
    { rewrite streakLoop_app by lia. now apply streakLoop_snoc. }
    destruct (v r); try contradiction; rewrite E; now split.
Qed.

Lemma append_moves_streak_witness :
  let h := historyOf [B; R; R] in
  let r := outcome "x" R 7%float in
  v r <> T
  /\ currentColor (computeStats (h ++ [r])) = Some R
  /\ currentStreak (computeStats (h ++ [r])) = 3.
Proof.
  cbn zeta.
  assert (N : v (outcome "x" R 7%float) <> T) by discriminate.
  split; [exact N|].
  exact (proj2 (proj2 (append_moves_streak (historyOf [B; R; R])
                                           (outcome "x" R 7%float))) N).
Defined.

(** *** Runs: the longest-streak and the distribution loops *)

Lemma rleFrom_head (l : list ColorKey) :
  forall cur n, exists m rest, rleFrom cur n l = (cur, m) :: rest /\ n <= m.
Proof.
  induction l as [|x l IH]; intros cur n; simpl.
  - now exists n, [].
  - destruct (ColorKey_eqb cur x).
    + destruct (IH cur (S n)) as (m & rest & -> & Hm). exists m, rest. split; [reflexivity | lia].
    + now exists n, (rleFrom x 1 l).
Qed.

Lemma rleFrom_proper (l : list ColorKey) :
  forall cur n, 1 <= n -> properRuns (rleFrom cur n l) = true.
Proof.
  induction l as [|x l IH]; intros cur n Hn.
  - cbn [rleFrom properRuns fst snd]. now rewrite (proj2 (Nat.leb_le 1 n) Hn).
  - cbn [rleFrom]. destruct (ColorKey_eqb cur x) eqn:E; [apply IH; lia|].
    destruct (rleFrom_head l x 1) as (m & rest & Eq & Hm).
    pose proof (IH x 1 (le_n 1)) as P. rewrite Eq in *.
    change (properRuns ((cur, n) :: (x, m) :: rest))
      with ((1 <=? n) && negb (ColorKey_eqb cur x) && properRuns ((x, m) :: rest)).
    rewrite P, E, (proj2 (Nat.leb_le 1 n) Hn). reflexivity.
Qed.

Lemma repeat_snoc_app (c : ColorKey) (n : nat) (l : list ColorKey) :
  repeat c n ++ c :: l = repeat c (S n) ++ l.
Proof. induction n as [|n IH]; simpl; [reflexivity | now rewrite IH]. Qed.

Lemma rleFrom_decode (l : list ColorKey) :
  forall cur n, decode (rleFrom cur n l) = repeat cur n ++ l.
Proof.
  unfold decode. induction l as [|x l IH]; intros cur n; simpl.
  - reflexivity.
  - destruct (ColorKey_eqb cur x) eqn:E.
    + apply ColorKey_eqb_eq in E. subst x. now rewrite IH, repeat_snoc_app.
    + simpl. now rewrite IH.
Qed.

Lemma rle_decode (l : list ColorKey) : decode (rle l) = l.
Proof. destruct l as [|x l]; [reflexivity|]. apply (rleFrom_decode l x 1). Qed.

Lemma rle_proper (l : list ColorKey) : properRuns (rle l) = true.
Proof. destruct l as [|x l]; [reflexivity|]. now apply rleFrom_proper. Qed.

(** Every run is a block of the sequence. *)
Lemma runs_are_blocks (runs : list (ColorKey * nat)) (c : ColorKey) (n : nat) :
  In (c, n) runs -> exists pre post, decode runs = pre ++ repeat c n ++ post.
Proof.
  unfold decode. induction runs as [|run runs IH]; intros H; [contradiction|].
  destruct H as [-> | H].
  - now exists [], (flat_map (fun run => repeat (fst run) (snd run)) runs).
  - destruct (IH H) as (pre & post & E).
    exists (repeat (fst run) (snd run) ++ pre), post.
    simpl. now rewrite E, <- app_assoc.
Qed.

Lemma longest_rleFrom (l : list ColorKey) :
  forall cur n lg,
    flushLongest (fst (fst (fold_left longestStep l (lg, Some cur, n))))
                 (snd (fst (fold_left longestStep l (lg, Some cur, n))))
                 (snd (fold_left longestStep l (lg, Some cur, n)))
    = fold_left recordMax (rleFrom cur n l) lg.
Proof.
  induction l as [|x l IH]; intros cur n lg; [reflexivity|].
  cbn [fold_left rleFrom longestStep same].
  destruct (ColorKey_eqb cur x); [apply IH|]. apply (IH x 1).
Qed.

Lemma longestOf_rle (l : list ColorKey) :
  longestOf l = fold_left recordMax (rle l) zeroPerColor.
Proof.
  unfold longestOf.
  destruct l as [|x l]; [reflexivity|].
  change (rle (x :: l)) with (rleFrom x 1 l).
  rewrite <- (longest_rleFrom l x 1 zeroPerColor).
  cbn [fold_left longestStep same flushLongest].
  now destruct (fold_left longestStep l (zeroPerColor, Some x, 1)) as [[lg rc] rl].
Qed.

Lemma recordMax_bounds (runs : list (ColorKey * nat)) (c : ColorKey) :
  forall lg,
    get lg c <= get (fold_left recordMax runs lg) c
    /\ (forall n, In (c, n) runs -> n <= get (fold_left recordMax runs lg) c)
    /\ (get (fold_left recordMax runs lg) c = get lg c
        \/ In (c, get (fold_left recordMax runs lg) c) runs).
Proof.
  induction runs as [|[d k] runs IH]; intros lg.
  - simpl. repeat split; [lia | contradiction | now left].
  - cbn [fold_left]. destruct (IH (recordMax lg (d, k))) as (H1 & H2 & H3).
    assert (G : get (recordMax lg (d, k)) c
                = if ColorKey_eqb d c then Nat.max (get lg d) k else get lg c)
      by apply get_set.
    destruct (ColorKey_eqb d c) eqn:E.
    + apply ColorKey_eqb_eq in E. subst d. repeat split.
      * lia.
      * intros n [Hn | Hn]; [inversion Hn; subst; lia | now apply H2].
      * destruct H3 as [H3 | H3]; [|right; now right].
        destruct (Nat.max_spec (get lg c) k) as [[_ M] | [_ M]].
        -- right. left. f_equal. lia.
        -- left. lia.
    + apply ColorKey_eqb_neq in E. repeat split.
      * lia.
      * intros n [Hn | Hn]; [inversion Hn; subst; contradiction | now apply H2].
      * destruct H3 as [H3 | H3]; [left; lia | right; now right].
Qed.

(** X4: [longest[c]] is the length of the longest block of consecutive [c]s
    in the history, Ties included: the history has a block of that many
    [c]s, and none that is longer. *)
Theorem longest_is_longest_block (h : list Result) (c : ColorKey) :
  (exists pre post,
      map v h = pre ++ repeat c (get (longest (computeStats h)) c) ++ post)
  /\ (forall pre post n,
        map v h = pre ++ repeat c n ++ post ->
        n <= get (longest (computeStats h)) c).
Proof.
  change (longest (computeStats h)) with (longestOf (map v h)). split.
  - rewrite longestOf_rle.
    destruct (recordMax_bounds (rle (map v h)) c zeroPerColor) as (_ & _ & [E | E]).
    + rewrite E. replace (get zeroPerColor c) with 0 by now destruct c.
      exists (map v h), []. simpl. now rewrite app_nil_r.
    + destruct (runs_are_blocks _ _ _ E) as (pre & post & Eq).
      rewrite rle_decode in Eq. now exists pre, post.
  - intros pre post n ->. apply longestOf_block.
Qed.

Lemma longest_is_longest_block_witness :
  map v (historyOf [T; T; R; T; T; T; B]) = [T; T; R] ++ repeat T 3 ++ [B]
  /\ 3 <= get (longest (computeStats (historyOf [T; T; R; T; T; T; B]))) T.
Proof.
  split; [reflexivity|].
  exact (proj2 (longest_is_longest_block (historyOf [T; T; R; T; T; T; B]) T)
               [T; T; R] [B] 3 eq_refl).
Defined.

Lemma dist_rleFrom (l : list ColorKey) :
  forall cur n d,
    flushDist (fst (fst (fold_left distStep l (distState d cur n))))
              (snd (fst (fold_left distStep l (distState d cur n))))
              (snd (fold_left distStep l (distState d cur n)))
    = fold_left recordRun (rleFrom cur n l) d.
Proof.
  induction l as [|x l IH]; intros cur n d.
  - now destruct cur.
  - destruct cur, x; cbn [fold_left rleFrom ColorKey_eqb].
    + apply (IH R (S n) d).
    + apply (IH B 1 (recordRun d (R, n))).
    + apply (IH T 1 (recordRun d (R, n))).
    + apply (IH R 1 (recordRun d (B, n))).
    + apply (IH B (S n) d).
    + apply (IH T 1 (recordRun d (B, n))).
    + apply (IH R 1 d).
    + apply (IH B 1 d).
    + apply (IH T (S n) d).
Qed.

Lemma distOf_rle (l : list ColorKey) :
  distOf l = fold_left recordRun (rle l) (mkDist zeroBuckets zeroBuckets).
Proof.
  unfold distOf. destruct l as [|x l]; [reflexivity|].
  change (rle (x :: l)) with (rleFrom x 1 l).
  rewrite <- (dist_rleFrom l x 1 (mkDist zeroBuckets zeroBuckets)).
  replace (fold_left distStep (x :: l) (mkDist zeroBuckets zeroBuckets, None, 0))
    with (fold_left distStep l (distState (mkDist zeroBuckets zeroBuckets) x 1))
    by now destruct x.
  now destruct (fold_left distStep l (distState (mkDist zeroBuckets zeroBuckets) x 1))
    as [[d rc] rl].
Qed.

Lemma histogram_nil (d : Dist) : histogram d [] = d.
Proof.
  destruct d as [[a1 a2 a3 a4 a5 a6] [b1 b2 b3 b4 b5 b6]].
  unfold histogram, addRuns, runsWith. simpl. now rewrite !Nat.add_0_r.
Qed.

Lemma histogram_cons (d : Dist) (run : ColorKey * nat) (runs : list (ColorKey * nat)) :
  histogram (recordRun d run) runs = histogram d (run :: runs).
Proof.
  destruct d as [[a1 a2 a3 a4 a5 a6] [b1 b2 b3 b4 b5 b6]].
  destruct run as [c k].
  destruct c; do 6 (try destruct k as [|k]);
    unfold histogram, addRuns, runsWith, recordRun; simpl;
    f_equal; f_equal; lia.
Qed.

Lemma recordRun_histogram (runs : list (ColorKey * nat)) :
  forall d, fold_left recordRun runs d = histogram d runs.
Proof.
  induction runs as [|run runs IH]; intros d; simpl.
  - now rewrite histogram_nil.
  - now rewrite IH, histogram_cons.
Qed.

(** X5: the streak chart shows the histogram of the maximal runs. Cut the
    history into its maximal runs of equal outcomes (they spell the history,
    none is empty and neighbours differ in colour); then the Red and Blue
    bars of bucket [k], for [k] from 1 to 5, count the Red and Blue runs of
    length exactly [k], and those of bucket [6+] the runs of length 6 or
    more. Tie runs are not shown. *)
Theorem chart_is_run_histogram (h : list Result) :
  let runs := rle (map v h) in
  decode runs = map v h
  /\ properRuns runs = true
  /\ Ops.chartData (computeStats h)
     = [ Ops.mkRow "1" (runsWith R (Nat.eqb 1) runs) (runsWith B (Nat.eqb 1) runs);
         Ops.mkRow "2" (runsWith R (Nat.eqb 2) runs) (runsWith B (Nat.eqb 2) runs);
         Ops.mkRow "3" (runsWith R (Nat.eqb 3) runs) (runsWith B (Nat.eqb 3) runs);
         Ops.mkRow "4" (runsWith R (Nat.eqb 4) runs) (runsWith B (Nat.eqb 4) runs);
         Ops.mkRow "5" (runsWith R (Nat.eqb 5) runs) (runsWith B (Nat.eqb 5) runs);
         Ops.mkRow "6+" (runsWith R (Nat.leb 6) runs) (runsWith B (Nat.leb 6) runs) ].
Proof.
  cbn zeta. split; [apply rle_decode|]. split; [apply rle_proper|].
  unfold Ops.chartData.
  change (dist (computeStats h)) with (distOf (map v h)).
  now rewrite distOf_rle, recordRun_histogram.
Qed.

(** *** The zebra maximum is the longest zebra *)

Lemma isZebra_iff (seg : list ColorKey) : zebraRun seg <-> isZebra seg = true.
Proof.
  unfold zebraRun. induction seg as [|a rest IH].
  - split; [reflexivity|]. intros _. split; [constructor|].
    intros [|i] x y Hx; discriminate.
  - split.
    + intros [Hall Hadj]. inversion Hall as [|? ? Ha Hrest]; subst.
      cbn [isZebra]. apply andb_true_iff. split; [apply andb_true_iff; split|].
      * destruct a; [reflexivity | reflexivity | contradiction].
      * destruct rest as [|b rest']; [reflexivity|].
        apply negb_true_iff, ColorKey_eqb_neq. now apply (Hadj 0).
      * apply IH. split; [exact Hrest|].
        intros i x y Hx Hy. now apply (Hadj (S i)).
    + cbn [isZebra]. intros H.
      apply andb_true_iff in H. destruct H as [H Hz].
      apply andb_true_iff in H. destruct H as [Ha Hb].
      apply IH in Hz. destruct Hz as [Hall Hadj]. split.
      * constructor; [|exact Hall]. intros ->. discriminate.
      * intros [|i] x y Hx Hy.
        -- simpl in Hx. inversion Hx; subst x.
           destruct rest as [|b rest']; [discriminate|].
           simpl in Hy. inversion Hy; subst y.
           now apply ColorKey_eqb_neq, negb_true_iff.
        -- now apply (Hadj i).
Qed.

Lemma isZebra_snoc (s : list ColorKey) (c x : ColorKey) :
  isZebra (s ++ [c]) = true -> c <> x -> x <> T -> isZebra (s ++ [c; x]) = true.
Proof.
  intros H Hcx Hx.
  assert (Ex : negb (ColorKey_eqb x T) = true)
    by (apply negb_true_iff, ColorKey_eqb_neq; exact Hx).
  assert (Ec : negb (ColorKey_eqb c x) = true)
    by (apply negb_true_iff, ColorKey_eqb_neq; exact Hcx).
  induction s as [|a s IH].
  - cbn [app isZebra] in *. rewrite Ex, Ec.
    apply andb_true_iff in H. destruct H as [H _].
    apply andb_true_iff in H. destruct H as [-> _]. reflexivity.
  - change ((a :: s) ++ [c; x]) with (a :: (s ++ [c; x])).
    change ((a :: s) ++ [c]) with (a :: (s ++ [c])) in H.
    cbn [isZebra] in *.
    apply andb_true_iff in H. destruct H as [H Hz].
    apply andb_true_iff in H. destruct H as [Ha Hb].
    rewrite Ha, (IH Hz). destruct s as [|b s]; simpl in *; now rewrite Hb.
Qed.

Lemma isZebra_no_tie (s : list ColorKey) : isZebra (s ++ [T]) = false.
Proof.
  induction s as [|a s IH]; [reflexivity|].
  change ((a :: s) ++ [T]) with (a :: (s ++ [T])). cbn [isZebra].
  rewrite IH. apply andb_false_r.
Qed.

Lemma zebraStep_inv (p : list ColorKey) (st : nat * nat * option ColorKey)
      (x : ColorKey) :
  zebraInv p st -> zebraInv (p ++ [x]) (zebraStep st x).
Proof.
  destruct st as [[zm zc] lc]. unfold zebraInv. cbn [fst snd].
  intros [(pre & seg & post & Ep & Hz & Hl) (pre2 & seg2 & Ep2 & Hz2 & Hl2 & Hlast)].
  (* the running zebra after [x] *)
  assert (Run : exists pre seg,
             p ++ [x] = pre ++ seg /\ isZebra seg = true
             /\ List.length seg = snd (fst (zebraStep (zm, zc, lc) x))
             /\ match snd (zebraStep (zm, zc, lc) x) with
                | None => seg = []
                | Some c => exists seg', seg = seg' ++ [c]
                end).
  { assert (Fresh : x <> T ->
               exists pre seg,
                 p ++ [x] = pre ++ seg /\ isZebra seg = true
                 /\ List.length seg = 1 /\ exists seg', seg = seg' ++ [x]).
    { intros Hx. exists p, [x]. repeat split; [now destruct x | now exists []]. }
    assert (NoT : lc <> Some T).
    { intros ->. destruct Hlast as [seg' ->].
      rewrite isZebra_no_tie in Hz2. discriminate. }
    destruct x.
    - destruct lc as [[]|]; cbn [zebraStep differs ColorKey_eqb negb fst snd];
        try (apply Fresh; discriminate); try congruence.
      destruct Hlast as [seg' ->].
      exists pre2, (seg' ++ [B; R]). repeat split.
      + now rewrite Ep2, <- !app_assoc.
      + apply isZebra_snoc; [exact Hz2 | discriminate | discriminate].
      + rewrite length_app in *. simpl in *. lia.
      + exists (seg' ++ [B]). now rewrite <- app_assoc.
    - destruct lc as [[]|]; cbn [zebraStep differs ColorKey_eqb negb fst snd];
        try (apply Fresh; discriminate); try congruence.
      destruct Hlast as [seg' ->].
      exists pre2, (seg' ++ [R; B]). repeat split.
      + now rewrite Ep2, <- !app_assoc.
      + apply isZebra_snoc; [exact Hz2 | discriminate | discriminate].
      + rewrite length_app in *. simpl in *. lia.
      + exists (seg' ++ [R]). now rewrite <- app_assoc.
    - exists (p ++ [T]), []. cbn [zebraStep fst snd]. rewrite app_nil_r. now repeat split. }
  split; [|exact Run].
  (* the maximum after [x] is the old maximum or the new running zebra *)
  assert (Max : fst (fst (zebraStep (zm, zc, lc) x)) = zm
                \/ fst (fst (zebraStep (zm, zc, lc) x)) = zc
                \/ fst (fst (zebraStep (zm, zc, lc) x))
                   = snd (fst (zebraStep (zm, zc, lc) x))).
  { destruct x; cbn [zebraStep fst snd]; lia. }
  destruct Max as [-> | [-> | ->]].
  - exists pre, seg, (post ++ [x]). repeat split; trivial.
    now rewrite Ep, <- !app_assoc.
  - exists pre2, seg2, [x]. repeat split; trivial. now rewrite Ep2, <- app_assoc.
  - destruct Run as (pre3 & seg3 & E3 & Hz3 & Hl3 & _).
    exists pre3, seg3, []. repeat split; trivial. now rewrite app_nil_r.
Qed.

Lemma zebra_fold_inv (rest : list ColorKey) :
  forall p st, zebraInv p st -> zebraInv (p ++ rest) (fold_left zebraStep rest st).
Proof.
  induction rest as [|x rest IH]; intros p st H; simpl.
  - now rewrite app_nil_r.
  - replace (p ++ x :: rest) with ((p ++ [x]) ++ rest) by now rewrite <- app_assoc.
    apply IH. now apply zebraStep_inv.
Qed.

Lemma zebra_fold_run (seg : list ColorKey) :
  forall a zm zc,
    isZebra (a :: seg) = true -> zc <= zm ->
    zc + List.length seg
    <= fst (fst (fold_left zebraStep seg (zm, zc, Some a))).
Proof.
  induction seg as [|b seg IH]; intros a zm zc H Hle.
  - simpl. lia.
  - cbn [isZebra] in H.
    apply andb_true_iff in H. destruct H as [H Hz].
    apply andb_true_iff in H. destruct H as [Ha Hab].
    assert (Hb : b <> T).
    { cbn [isZebra] in Hz. apply andb_true_iff in Hz. destruct Hz as [Hz _].
      apply andb_true_iff in Hz. destruct Hz as [Hb _]. intros ->. discriminate. }
    assert (E : zebraStep (zm, zc, Some a) b = (Nat.max zm (S zc), S zc, Some b)).
    { destruct a, b; try discriminate; try contradiction; reflexivity. }
    cbn [fold_left]. rewrite E.
    specialize (IH b (Nat.max zm (S zc)) (S zc) Hz ltac:(lia)).
    simpl List.length. lia.
Qed.

Lemma zebra_block_bound (pre seg post : list ColorKey) :
  isZebra seg = true -> List.length seg <= zebraOf (pre ++ seg ++ post).
Proof.
  intros Hz. rewrite zebraOf_fst, !fold_left_app.
  etransitivity; [|apply zebra_fold_mono].
  destruct seg as [|a seg]; [simpl; lia|].
  cbn [fold_left].
  destruct (fold_left zebraStep pre (0, 0, None)) as [[zm zc] lc].
  assert (Ha : a <> T).
  { cbn [isZebra] in Hz. apply andb_true_iff in Hz. destruct Hz as [Hz _].
    apply andb_true_iff in Hz. destruct Hz as [Ha _]. intros ->. discriminate. }
  assert (E : exists zm' zc', zebraStep (zm, zc, lc) a = (zm', zc', Some a)
                              /\ 1 <= zc' /\ zc' <= zm').
  { destruct a; [| |contradiction].
    - destruct lc as [[]|]; cbn [zebraStep differs ColorKey_eqb negb];
        do 2 eexists; (split; [reflexivity | lia]).
    - destruct lc as [[]|]; cbn [zebraStep differs ColorKey_eqb negb];
        do 2 eexists; (split; [reflexivity | lia]). }
  destruct E as (zm' & zc' & -> & H1 & H2).
  pose proof (@zebra_fold_run seg a zm' zc' Hz H2). simpl List.length. lia.
Qed.

(** X6: [zebraMax] is the length of the longest zebra of the history, a
    zebra being a stretch of consecutive outcomes without a Tie in which no
    two neighbours are equal: the history has a zebra of that length, and
    none that is longer. *)
Theorem zebraMax_is_longest_zebra (h : list Result) :
  (exists pre seg post,
      map v h = pre ++ seg ++ post /\ zebraRun seg
      /\ List.length seg = zebraMax (computeStats h))
  /\ (forall pre seg post,
        map v h = pre ++ seg ++ post -> zebraRun seg ->
        List.length seg <= zebraMax (computeStats h)).
Proof.
  change (zebraMax (computeStats h)) with (zebraOf (map v h)). split.
  - assert (I0 : zebraInv [] (0, 0, None)).
    { split; [now exists [], [], [] | now exists [], []]. }
    destruct (zebra_fold_inv (map v h) I0) as [(pre & seg & post & E & Hz & Hl) _].
    exists pre, seg, post. simpl in E. rewrite zebraOf_fst.
    split; [exact E|]. split; [now apply isZebra_iff | exact Hl].
  - intros pre seg post -> Hz. apply zebra_block_bound. now apply isZebra_iff.
Qed.

Lemma zebraMax_is_longest_zebra_witness :
  map v (historyOf [R; R; B; R; T; B]) = [R] ++ [R; B; R] ++ [T; B]
  /\ zebraRun [R; B; R]
  /\ 3 <= zebraMax (computeStats (historyOf [R; R; B; R; T; B])).
Proof.
  assert (Z : zebraRun [R; B; R]) by (apply isZebra_iff; reflexivity).
  split; [reflexivity|]. split; [exact Z|].
  exact (proj2 (zebraMax_is_longest_zebra (historyOf [R; R; B; R; T; B]))
               [R] [R; B; R] [T; B] eq_refl Z).
Defined.

(** *** Zebra against alternations *)

Lemma zebra_alt_fold (seq : list ColorKey) :
  forall zm zc lc alt last,
    (forall c, lc = Some c -> last = Some c) ->
    zm <= S alt -> zc <= S alt ->
    fst (fst (fold_left zebraStep seq (zm, zc, lc)))
    <= S (fst (fold_left altStep seq (alt, last))).
Proof.
  induction seq as [|x seq IH]; intros zm zc lc alt last Hl Hm Hc; [simpl; lia|].
  assert (Go : x <> T ->
               fst (fst (fold_left zebraStep (x :: seq) (zm, zc, lc)))
               <= S (fst (fold_left altStep (x :: seq) (alt, last)))).
  { intros Hx.
    assert (Ez : zebraStep (zm, zc, lc) x
                 = (Nat.max zm (if differs lc x then S zc else 1),
                    (if differs lc x then S zc else 1), Some x))
      by (destruct x; [| |contradiction]; simpl; now destruct (differs lc _), lc).
    assert (Ea : altStep (alt, last) x = ((if differs last x then S alt else alt), Some x))
      by (destruct x; [| |contradiction]; reflexivity).
    cbn [fold_left]. rewrite Ez, Ea. apply IH.
    - intros c Hc'. exact Hc'.
    - destruct (differs lc x) eqn:D.
      + destruct lc as [c|]; [|discriminate]. rewrite (Hl c eq_refl), D. lia.
      + destruct (differs last x); lia.
    - destruct (differs lc x) eqn:D.
      + destruct lc as [c|]; [|discriminate]. rewrite (Hl c eq_refl), D. lia.
      + destruct (differs last x); lia. }
  destruct x; [apply Go; discriminate | apply Go; discriminate |].
  cbn [fold_left zebraStep altStep]. apply IH; [discriminate | lia | lia].
Qed.

Lemma changes_bound (l : list ColorKey) : changes l <= List.length l - 1.
Proof.
  induction l as [|a [|b l] IH]; simpl in *; try lia.
  destruct (ColorKey_eqb a b); lia.
Qed.

(** X7: a zebra of [n] outcomes holds [n - 1] alternations, so
    [zebraMax <= alternations + 1]. A history without a non-Tie outcome has
    no alternation; in any other history the alternations are fewer than
    the non-Tie outcomes, hence fewer than the outcomes:
    [alternations + 1 <= number of non-Ties <= total]. *)
Theorem zebra_and_alternation_bounds (h : list Result) :
  let s := computeStats h in
  zebraMax s <= alternations s + 1
  /\ (nonTies h = [] -> alternations s = 0)
  /\ (nonTies h <> [] ->
      alternations s + 1 <= List.length (nonTies h)
      /\ List.length (nonTies h) <= total s).
Proof.
  cbn zeta.
  assert (A : alternations (computeStats h) = changes (nonTies h)).
  { unfold nonTies.
    change (alternations (computeStats h))
      with (fst (fold_left altStep (map v h) (0, None))).
    apply altFold_changes. }
  split; [|split].
  - change (zebraMax (computeStats h)) with (zebraOf (map v h)).
    change (alternations (computeStats h))
      with (fst (fold_left altStep (map v h) (0, None))).
    rewrite zebraOf_fst, Nat.add_1_r.
    apply zebra_alt_fold; [discriminate | lia | lia].
  - intros E. now rewrite A, E.
  - intros N. rewrite A. split.
    + pose proof (changes_bound (nonTies h)) as C.
      destruct (nonTies h); [contradiction | simpl in *; lia].
    + change (total (computeStats h)) with (List.length h).
      unfold nonTies. pose proof (filter_length_le nonTie (map v h)) as L.
      now rewrite length_map in L.
Qed.

Lemma zebra_and_alternation_bounds_witness :
  nonTies (historyOf [T; R; T; B; B; T]) <> []
  /\ alternations (computeStats (historyOf [T; R; T; B; B; T])) + 1
     <= List.length (nonTies (historyOf [T; R; T; B; B; T])).
Proof.
  assert (N : nonTies (historyOf [T; R; T; B; B; T]) <> [])
    by (vm_compute; discriminate).
  split; [exact N|].
  exact (proj1 (proj2 (proj2 (zebra_and_alternation_bounds
                                (historyOf [T; R; T; B; B; T]))) N)).
Defined.

(** *** The recent window *)

Lemma countStep_get (l : list ColorKey) (c : ColorKey) :
  forall m, get (fold_left countStep l m) c = get m c + occurrences c l.
Proof.
  unfold occurrences.
  induction l as [|x l IH]; intros m; [simpl; lia|].
  cbn [fold_left]. rewrite IH. unfold countStep. rewrite get_set.
  cbn [filter]. rewrite (ColorKey_eqb_sym c x).
  destruct (ColorKey_eqb x c) eqn:E; simpl; [|lia].
  apply ColorKey_eqb_eq in E. subst x. lia.
Qed.

Lemma countStep_sum (l : list ColorKey) :
  forall m,
    atR (fold_left countStep l m) + atB (fold_left countStep l m)
    + atT (fold_left countStep l m)
    = atR m + atB m + atT m + List.length l.
Proof.
  induction l as [|x l IH]; intros m; simpl; [lia|].
  rewrite IH. destruct m as [r b t]. destruct x; simpl; lia.
Qed.

(** X8: the recent window holds the last 20 outcomes, or all of them when
    there are fewer: for each colour it counts the outcomes of that colour
    among them, the three counts add up to [min 20 total], and for a history
    of at most 20 outcomes they are the counts of the whole history. *)
Theorem window_counts_last_twenty (h : list Result) (c : ColorKey) :
  let s := computeStats h in
  get (last20 s) c = occurrences c (lastN (map v h) 20)
  /\ atR (last20 s) + atB (last20 s) + atT (last20 s) = Nat.min 20 (total s)
  /\ (total s <= 20 -> get (last20 s) c = occurrences c (map v h)).
Proof.
  cbn zeta.
  change (last20 (computeStats h))
    with (fold_left countStep (map v (lastN h 20)) zeroPerColor).
  change (total (computeStats h)) with (List.length h).
  rewrite countStep_sum, countStep_get, map_lastN.
  replace (get zeroPerColor c) with 0 by now destruct c.
  split; [reflexivity|]. split.
  - unfold lastN. rewrite length_skipn, length_map.
    cbn [atR atB atT zeroPerColor]. lia.
  - intros H20. unfold lastN.
    replace (List.length (map v h) - 20) with 0 by (rewrite length_map; lia).
    reflexivity.
Qed.

Lemma window_counts_last_twenty_witness :
  total (computeStats (historyOf [R; B; T; R; R])) <= 20
  /\ get (last20 (computeStats (historyOf [R; B; T; R; R]))) R
     = occurrences R (map v (historyOf [R; B; T; R; R])).
Proof.
  assert (H : total (computeStats (historyOf [R; B; T; R; R])) <= 20)
    by (vm_compute; lia).
  split; [exact H|].
  exact (proj2 (proj2 (window_counts_last_twenty (historyOf [R; B; T; R; R]) R)) H).
Defined.

End MoreStats.

(** * The signals, read on the history *)

Section MoreSignals.
Import Stats Signals Spec Inv Ref.

Lemma longestOf_has_block (l : list ColorKey) (c : ColorKey) :
  exists pre post, l = pre ++ repeat c (get (longestOf l) c) ++ post.
Proof.
  rewrite longestOf_rle.
  destruct (recordMax_bounds (rle l) c zeroPerColor) as (_ & _ & [E | E]).
  - rewrite E. replace (get zeroPerColor c) with 0 by now destruct c.
    exists l, []. simpl. now rewrite app_nil_r.
  - destruct (runs_are_blocks _ _ _ E) as (pre & post & Eq).
    rewrite rle_decode in Eq. now exists pre, post.
Qed.

Lemma zebraOf_has_zebra (l : list ColorKey) :
  exists pre seg post,
    l = pre ++ seg ++ post /\ isZebra seg = true /\ List.length seg = zebraOf l.
Proof.
  assert (I0 : zebraInv [] (0, 0, None)).
  { split; [now exists [], [], [] | now exists [], []]. }
  destruct (zebra_fold_inv l I0) as [(pre & seg & post & E & Hz & Hl) _].
  exists pre, seg, post. rewrite zebraOf_fst. now repeat split.
Qed.

Lemma five_in_block (l : list ColorKey) (c : ColorKey) :
  5 <= get (longestOf l) c <-> exists pre post, l = pre ++ repeat c 5 ++ post.
Proof.
  split.
  - intros H. destruct (longestOf_has_block l c) as (pre & post & E).
    exists pre, (repeat c (get (longestOf l) c - 5) ++ post).
    replace (repeat c 5 ++ repeat c (get (longestOf l) c - 5) ++ post)
      with (repeat c (get (longestOf l) c) ++ post); [exact E|].
    rewrite (app_assoc (repeat c 5)), <- repeat_app.
    now replace (5 + (get (longestOf l) c - 5)) with (get (longestOf l) c) by lia.
  - intros (pre & post & ->). apply longestOf_block.
Qed.

(** X9: on the snapshot of a history, the zebra signal is on exactly when
    the history contains a zebra of at least 5 outcomes (consecutive, no
    Tie, no two neighbours equal), and the long-streak signal exactly when
    it contains 5 consecutive Reds or 5 consecutive Blues. Five Ties in a
    row do not turn it on. *)
Theorem pattern_signals_on_history (h : list Result) :
  exists z s b t,
    signals (computeStats h) = [z; s; b; t]
    /\ (on z = true <->
        exists pre seg post,
          map v h = pre ++ seg ++ post /\ zebraRun seg /\ 5 <= List.length seg)
    /\ (on s = true <->
        exists pre post c,
          (c = R \/ c = B) /\ map v h = pre ++ repeat c 5 ++ post).
Proof.
  do 4 eexists. split; [reflexivity|]. cbn [on]. split.
  - rewrite Nat.leb_le.
    change (zebraMax (computeStats h)) with (zebraOf (map v h)). split.
    + intros H. destruct (zebraOf_has_zebra (map v h)) as (pre & seg & post & E & Hz & Hl).
      exists pre, seg, post. split; [exact E|].
      split; [now apply isZebra_iff | lia].
    + intros (pre & seg & post & -> & Hz & Hl).
      etransitivity; [exact Hl|]. apply zebra_block_bound. now apply isZebra_iff.
  - rewrite orb_true_iff, !Nat.leb_le.
    change (longest (computeStats h)) with (longestOf (map v h)).
    change (atR (longestOf (map v h))) with (get (longestOf (map v h)) R).
    change (atB (longestOf (map v h))) with (get (longestOf (map v h)) B).
    rewrite !five_in_block. split.
    + intros [(pre & post & E) | (pre & post & E)].
      * exists pre, post, R. split; [now left | exact E].
      * exists pre, post, B. split; [now right | exact E].
    + intros (pre & post & c & [-> | ->] & E); [left | right]; now exists pre, post.
Qed.

(** X10: on the snapshot of a history, with [w] the last 20 outcomes (all of
    them when there are fewer), the bias signal is on exactly when [w] is not
    empty and Red, or Blue, makes up at least three fifths of it, which for
    a full window means at least 12 of the 20; the ties signal is on exactly
    when [w] holds at least 3 Ties. *)
Theorem window_signals_on_history (h : list Result) :
  let w := lastN (map v h) 20 in
  exists z s b t,
    signals (computeStats h) = [z; s; b; t]
    /\ (on b = true <->
        h <> [] /\ (3 * List.length w <= 5 * occurrences R w
                    \/ 3 * List.length w <= 5 * occurrences B w))
    /\ (20 <= List.length h ->
        (on b = true <-> 12 <= occurrences R w \/ 12 <= occurrences B w))
    /\ (on t = true <-> 3 <= occurrences T w).
Proof.
  cbn zeta. do 4 eexists. split; [reflexivity|]. cbn [on].
  assert (W : total20 (computeStats h) = List.length (lastN (map v h) 20)).
  { rewrite total20_computeStats. unfold lastN.
    rewrite length_skipn, length_map. lia. }
  assert (L : List.length (lastN (map v h) 20) = Nat.min 20 (List.length h)).
  { unfold lastN. rewrite length_skipn, length_map. lia. }
  assert (C : forall c, get (last20 (computeStats h)) c
                        = occurrences c (lastN (map v h) 20)).
  { intros c.
    change (last20 (computeStats h))
      with (fold_left countStep (map v (lastN h 20)) zeroPerColor).
    rewrite countStep_get, map_lastN. now destruct c. }
  assert (S20 : total20 (computeStats h) <= 20) by (rewrite W, L; lia).
  assert (Bias : geSixTenths (redBias (computeStats h)) = true
                 \/ geSixTenths (blueBias (computeStats h)) = true
                 <-> h <> [] /\ (3 * List.length (lastN (map v h) 20)
                                 <= 5 * occurrences R (lastN (map v h) 20)
                                 \/ 3 * List.length (lastN (map v h) 20)
                                    <= 5 * occurrences B (lastN (map v h) 20))).
  { unfold redBias, blueBias.
    rewrite (@bias_trigger (computeStats h) (atR (last20 (computeStats h))))
      by (trivial; unfold total20; lia).
    rewrite (@bias_trigger (computeStats h) (atB (last20 (computeStats h))))
      by (trivial; unfold total20; lia).
    change (atR (last20 (computeStats h))) with (get (last20 (computeStats h)) R).
    change (atB (last20 (computeStats h))) with (get (last20 (computeStats h)) B).
    rewrite !C, W.
    assert (N : 0 < List.length (lastN (map v h) 20) <-> h <> []).
    { rewrite L. destruct h; simpl; split; intros; try lia; congruence. }
    tauto. }
  split; [rewrite orb_true_iff; exact Bias|]. split.
  - intros H20. rewrite orb_true_iff, Bias.
    assert (L20 : List.length (lastN (map v h) 20) = 20) by (rewrite L; lia).
    rewrite L20. split.
    + intros [_ [H | H]]; [left | right]; lia.
    + intros H. split; [destruct h; simpl in *; [lia | discriminate]|].
      destruct H; [left | right]; lia.
  - rewrite Nat.leb_le.
    change (atT (last20 (computeStats h))) with (get (last20 (computeStats h)) T).
    now rewrite C.
Qed.

Lemma window_signals_on_history_witness :
  let h := historyOf (repeat R 12 ++ repeat B 5 ++ repeat T 3) in
  20 <= List.length h
  /\ 12 <= occurrences R (lastN (map v h) 20)
  /\ map on (signals (computeStats h)) = [false; true; true; true].
Proof.
  cbn zeta.
  assert (H20 : 20 <= List.length (historyOf (repeat R 12 ++ repeat B 5 ++ repeat T 3)))
    by (vm_compute; lia).
  assert (H12 : 12 <= occurrences R
                        (lastN (map v (historyOf (repeat R 12 ++ repeat B 5 ++ repeat T 3))) 20))
    by (vm_compute; lia).
  split; [exact H20|]. split; [exact H12|].
  destruct (window_signals_on_history
              (historyOf (repeat R 12 ++ repeat B 5 ++ repeat T 3)))
    as (z & s & b & t & E & _ & K & _).
  pose proof (proj2 (K H20) (or_introl H12)) as Hb.
  rewrite E. vm_compute in E. inversion E; subst. reflexivity.
Defined.

(** *** The long-streak signal against the chart *)

Lemma runsWith_pos (c : ColorKey) (p : nat -> bool) (runs : list (ColorKey * nat)) :
  1 <= runsWith c p runs <-> exists n, In (c, n) runs /\ p n = true.
Proof.
  unfold runsWith. induction runs as [|[d k] runs IH].
  - simpl. split; [lia | now intros (n & [] & _)].
  - cbn [filter fst snd].
    destruct (ColorKey_eqb d c && p k) eqn:E.
    + split; [|simpl; lia]. intros _.
      apply andb_true_iff in E. destruct E as [Ed Ep].
      apply ColorKey_eqb_eq in Ed. subst d. exists k. split; [now left | exact Ep].
    + rewrite IH. split.
      * intros (n & Hin & Hp). exists n. split; [now right | exact Hp].
      * intros (n & [Hin | Hin] & Hp); [|now exists n].
        inversion Hin; subst. now rewrite ColorKey_eqb_refl, Hp in E.
Qed.

Lemma longest_reaches (l : list ColorKey) (c : ColorKey) (k : nat) :
  1 <= k ->
  (k <= get (longestOf l) c <-> exists n, In (c, n) (rle l) /\ k <= n).
Proof.
  intros Hk. rewrite longestOf_rle.
  destruct (recordMax_bounds (rle l) c zeroPerColor) as (_ & Hub & Hex).
  split.
  - intros H. destruct Hex as [E | E].
    + rewrite E in H. destruct c; simpl in H; lia.
    + now exists (get (fold_left recordMax (rle l) zeroPerColor) c).
  - intros (n & Hin & Hn). specialize (Hub n Hin). lia.
Qed.

(** X11: the long-streak signal and the streak chart agree. On the snapshot
    of a history the signal is on exactly when the chart shows a Red or a
    Blue run in bucket [5] or in bucket [6+]. *)
Theorem streak_signal_matches_chart (h : list Result) :
  exists z s b t r1 r2 r3 r4 r5 r6,
    signals (computeStats h) = [z; s; b; t]
    /\ Ops.chartData (computeStats h) = [r1; r2; r3; r4; r5; r6]
    /\ (on s = true <->
        1 <= Ops.Red r5 + Ops.Red r6 + Ops.Blue r5 + Ops.Blue r6).
Proof.
  do 10 eexists. split; [reflexivity|]. split; [reflexivity|].
  cbn [on Ops.Red Ops.Blue].
  change (dist (computeStats h)) with (distOf (map v h)).
  change (longest (computeStats h)) with (longestOf (map v h)).
  change (atR (longestOf (map v h))) with (get (longestOf (map v h)) R).
  change (atB (longestOf (map v h))) with (get (longestOf (map v h)) B).
  rewrite distOf_rle, recordRun_histogram.
  cbn [histogram addRuns distR distB n5 n6plus zeroBuckets Nat.add].
  rewrite orb_true_iff, !Nat.leb_le.
  rewrite !longest_reaches by lia.
  assert (Split : forall c,
             (exists n, In (c, n) (rle (map v h)) /\ 5 <= n)
             <-> 1 <= runsWith c (Nat.eqb 5) (rle (map v h))
                      + runsWith c (Nat.leb 6) (rle (map v h))).
  { intros c. split.
    - intros (n & Hin & Hn). destruct (Nat.eq_dec n 5) as [-> | Hne].
      + assert (1 <= runsWith c (Nat.eqb 5) (rle (map v h)))
          by (apply runsWith_pos; now exists 5).
        lia.
      + assert (1 <= runsWith c (Nat.leb 6) (rle (map v h))).
        { apply runsWith_pos. exists n. split; [exact Hin|]. apply Nat.leb_le. lia. }
        lia.
    - intros H.
      assert (D : 1 <= runsWith c (Nat.eqb 5) (rle (map v h))
                  \/ 1 <= runsWith c (Nat.leb 6) (rle (map v h))) by lia.
      destruct D as [D | D]; apply runsWith_pos in D; destruct D as (n & Hin & Hp);
        exists n; (split; [exact Hin|]).
      + apply Nat.eqb_eq in Hp. lia.
      + apply Nat.leb_le in Hp. lia. }
  rewrite !Split. lia.
Qed.

End MoreSignals.

(** * Further properties of the bulk parser *)

Section MoreParser.
Import Parser Spec Ref.

Lemma outcomesOf_app (a b : list string) :
  outcomesOf (a ++ b) = outcomesOf a ++ outcomesOf b.
Proof.
  unfold outcomesOf. induction a as [|t a IH]; [reflexivity|].
  simpl. destruct (mapToken t); simpl; now rewrite IH.
Qed.

(** Empty pieces do not count, so it does not matter whether the text
    starts inside a separator run. *)
Lemma outcomes_inSep (s : string) :
  outcomesOf (splitFrom true EmptyString s) = outcomesOf (splitFrom false EmptyString s).
Proof.
  destruct s as [|c s]; [reflexivity|].
  cbn [splitFrom]. now destruct (isSplitChar c).
Qed.

Lemma splitFrom_app (a b : string) (c : ascii) :
  isSplitChar c = true ->
  forall i cur,
    (i = true -> cur = EmptyString) ->
    outcomesOf (splitFrom i cur (a ++ String c b))
    = outcomesOf (splitFrom i cur a) ++ outcomesOf (splitFrom false EmptyString b).
Proof.
  intros Hc. induction a as [|d a IH]; intros i cur Hi.
  - cbn [append splitFrom]. rewrite Hc, <- outcomes_inSep.
    destruct i.
    + now rewrite (Hi eq_refl).
    + change (cur :: splitFrom true EmptyString b)
        with ([cur] ++ splitFrom true EmptyString b).
      now rewrite outcomesOf_app.
  - cbn [append splitFrom]. destruct (isSplitChar d).
    + destruct i.
      * now apply IH.
      * change (outcomesOf ([cur] ++ splitFrom true EmptyString (a ++ String c b))
                = outcomesOf ([cur] ++ splitFrom true EmptyString a)
                  ++ outcomesOf (splitFrom false EmptyString b)).
        rewrite !outcomesOf_app, <- app_assoc. f_equal. now apply IH.
    + apply IH. discriminate.
Qed.

Lemma toUpperCase_app (a b : string) :
  toUpperCase (a ++ b) = (toUpperCase a ++ toUpperCase b)%string.
Proof. induction a as [|c a IH]; simpl; [reflexivity | now rewrite IH]. Qed.

Lemma clean_app (a b : string) : clean (a ++ b) = (clean a ++ clean b)%string.
Proof. induction a as [|c a IH]; simpl; [reflexivity | now rewrite IH]. Qed.

Lemma parseBulk_sep (a b : string) (c : ascii) :
  separates c = true ->
  parseBulk (a ++ String c b) = parseBulk a ++ parseBulk b.
Proof.
  intros Hc. unfold parseBulk, tokens, split.
  rewrite toUpperCase_app, clean_app. cbn [toUpperCase clean].
  apply (@splitFrom_app (clean (toUpperCase a)) (clean (toUpperCase b)) _ Hc).
  discriminate.
Qed.

(** X12: parsing distributes over a separator. If [c] is white space, a
    comma, a semicolon, a pipe or any character that the cleaning step
    blanks (a digit, a letter outside the three words, ...), the outcomes of
    [a ++ c ++ b] are those of [a] followed by those of [b]. *)
Theorem parse_distributes_over_separator (a b : string) (c : ascii) :
  separates c = true ->
  parseBulk (a ++ String c b) = parseBulk a ++ parseBulk b.
Proof.
  intros Hc. unfold parseBulk, tokens, split.
  rewrite toUpperCase_app, clean_app. cbn [toUpperCase clean].
  apply (@splitFrom_app (clean (toUpperCase a)) (clean (toUpperCase b)) _ Hc).
  discriminate.
Qed.

Lemma parse_distributes_over_separator_witness :
  separates "7" = true
  /\ parseBulk "red,Blue7tie;;x T" = parseBulk "red,Blue" ++ parseBulk "tie;;x T".
Proof.
  split; [reflexivity|].
  apply (@parse_distributes_over_separator "red,Blue" "tie;;x T" "7"). reflexivity.
Defined.

Lemma parse_joined (label : ColorKey -> string) (sep : ascii) :
  (forall x, parseBulk (label x) = [x]) ->
  separates sep = true ->
  forall values, parseBulk (joinWith sep (map label values)) = values.
Proof.
  intros Hl Hs. induction values as [|x [|y rest] IH].
  - reflexivity.
  - apply Hl.
  - change (joinWith sep (map label (x :: y :: rest)))
      with (label x ++ String sep (joinWith sep (map label (y :: rest))))%string.
    now rewrite parseBulk_sep, Hl, IH.
Qed.

(** X13: writing a list of outcomes and pasting it back gives the list. For
    every list of outcomes and every separator character as in X12, the
    letters [R], [B], [T] joined by the separator parse back to the list,
    and so do the labels [Red], [Blue], [Tie] that [colorLabel] shows. *)
Theorem parse_written_outcomes (sep : ascii) (values : list ColorKey) :
  separates sep = true ->
  parseBulk (joinWith sep (map tagString values)) = values
  /\ parseBulk (joinWith sep (map Ops.colorLabel values)) = values.
Proof.
  intros Hs. split; apply parse_joined; trivial; now intros [].
Qed.

Lemma parse_written_outcomes_witness :
  separates "|" = true
  /\ parseBulk (joinWith "|" (map Ops.colorLabel [R; T; T; B])) = [R; T; T; B].
Proof.
  split; [reflexivity|].
  exact (proj2 (@parse_written_outcomes "|" [R; T; T; B] eq_refl)).
Defined.

(** *** Text without the letters R, B, T *)

Lemma splitFrom_allChars (p : ascii -> bool) (s : string) :
  forall i cur,
    allChars p cur = true -> allChars p s = true ->
    Forall (fun t => allChars p t = true) (splitFrom i cur s).
Proof.
  induction s as [|c s IH]; intros i cur Hcur Hs.
  - now repeat constructor.
  - cbn [allChars] in Hs. apply andb_true_iff in Hs. destruct Hs as [Hc Hs].
    cbn [splitFrom]. destruct (isSplitChar c).
    + destruct i; [|constructor; trivial]; now apply IH.
    + apply IH; trivial.
      clear - Hcur Hc. induction cur as [|d cur IHc]; cbn [append allChars] in *.
      * now rewrite Hc.
      * apply andb_true_iff in Hcur. destruct Hcur as [-> Hcur]. now apply IHc.
Qed.

Lemma mapToken_needs_tag (t : string) :
  allChars noTagCapital t = true -> mapToken t = None.
Proof.
  intros H. destruct (mapToken t) as [c|] eqn:E; [|reflexivity].
  apply mapToken_words in E.
  destruct E as [[_ [-> | ->]] | [[_ [-> | ->]] | [_ [-> | ->]]]]; discriminate.
Qed.

(** X14: an ASCII text (every character below 128) without any of the
    letters [r], [b], [t], in either case, parses to nothing, whatever other
    ASCII characters it holds. *)
Theorem parse_needs_a_tag_letter (text : string) :
  allChars isAscii text = true ->
  allChars noTagLetter text = true -> parseBulk text = [].
Proof.
  intros _ H. unfold parseBulk, tokens, split.
  assert (C : allChars noTagCapital (clean (toUpperCase text)) = true).
  { induction text as [|c text IH]; [reflexivity|].
    cbn [allChars] in H. apply andb_true_iff in H. destruct H as [Hc Ht].
    cbn [toUpperCase clean allChars]. rewrite (IH Ht), andb_true_r.
    destruct (isKept (upperChar c)); [exact Hc | reflexivity]. }
  pose proof (@splitFrom_allChars noTagCapital _ false EmptyString eq_refl C) as F.
  induction F as [|t ts Ht _ IH]; [reflexivity|].
  simpl. now rewrite (mapToken_needs_tag _ Ht).
Qed.

Lemma parse_needs_a_tag_letter_witness :
  allChars isAscii "queue, 12 | IDLE - undue" = true
  /\ allChars noTagLetter "queue, 12 | IDLE - undue" = true
  /\ parseBulk "queue, 12 | IDLE - undue" = [].
Proof.
  split; [reflexivity|]. split; [reflexivity|].
  apply parse_needs_a_tag_letter; reflexivity.
Defined.

End MoreParser.

(** * Further properties of the handlers *)

Section MoreTracker.
Import Tracker Spec Ref Ops.

(** *** Stamping a list *)

Lemma mapM_stamps (A : Type) (f : A -> M Result) (g : A -> ColorKey) :
  (forall x w,
      f x w = (mkResult (JStr (rng w (uidCalls w))) (g x)
                        (JNum (clock w (S (nowCalls w)))),
               mkWorld (rng w) (clock w) (S (uidCalls w)) (S (S (nowCalls w))))) ->
  forall l w,
    map v (fst (mapM f l w)) = map g l
    /\ map id (fst (mapM f l w))
       = map (fun k => JStr (rng w k)) (seq (uidCalls w) (List.length l))
    /\ map ts (fst (mapM f l w))
       = map (fun k => JNum (clock w (nowCalls w + 2 * k + 1))) (seq 0 (List.length l))
    /\ later w (snd (mapM f l w)).
Proof.
  intros Hf. induction l as [|x l IH]; intros w.
  - simpl. repeat split; apply later_refl || lia.
  - set (w1 := mkWorld (rng w) (clock w) (S (uidCalls w)) (S (S (nowCalls w)))).
    assert (E : mapM f (x :: l) w
                = (mkResult (JStr (rng w (uidCalls w))) (g x)
                            (JNum (clock w (S (nowCalls w))))
                   :: fst (mapM f l w1),
                   snd (mapM f l w1))).
    { cbn [mapM]. unfold bind, ret. rewrite Hf. fold w1.
      now destruct (mapM f l w1). }
    rewrite E. destruct (IH w1) as (Hv & Hi & Ht & Hl).
    cbn [fst snd map List.length seq v id ts].
    rewrite Hv, Hi, Ht. split; [reflexivity|]. split; [reflexivity|]. split.
    + replace (nowCalls w + 2 * 0 + 1) with (S (nowCalls w)) by lia. f_equal.
      rewrite <- seq_shift, map_map. apply map_ext. intros k.
      replace (nowCalls w1 + 2 * k + 1) with (nowCalls w + 2 * S k + 1)
        by (simpl; lia).
      reflexivity.
    + destruct Hl as (H1 & H2 & H3 & H4). unfold later. simpl in *.
      repeat split; trivial; lia.
Qed.

Lemma stamp_shape (x : ColorKey) (w : World) :
  stamp x w = (mkResult (JStr (rng w (uidCalls w))) x
                        (JNum (clock w (S (nowCalls w)))),
               mkWorld (rng w) (clock w) (S (uidCalls w)) (S (S (nowCalls w)))).
Proof. reflexivity. Qed.

Lemma stampTag_shape (x : Json) (w : World) :
  stampTag x w = (mkResult (JStr (rng w (uidCalls w))) (asColorKey (Some x))
                           (JNum (clock w (S (nowCalls w)))),
                  mkWorld (rng w) (clock w) (S (uidCalls w)) (S (S (nowCalls w)))).
Proof. reflexivity. Qed.

(** X15: the bulk button. When the text parses to nothing, nothing changes:
    history, text field and world stay as they are. Otherwise the text
    field is emptied and one record per parsed outcome is appended after the
    existing records, in order, the [k]-th of them with the id of the
    [k]-th [uid()] call made from then on. *)
Theorem bulk_add_appends (bulk : string) (st : App) (w : World) :
  (Parser.parseBulk bulk = [] -> handleBulkAdd bulk st w = ((st, bulk), w))
  /\ (Parser.parseBulk bulk <> [] ->
      snd (fst (handleBulkAdd bulk st w)) = EmptyString
      /\ alerts (fst (fst (handleBulkAdd bulk st w))) = alerts st
      /\ exists news,
          history (fst (fst (handleBulkAdd bulk st w))) = history st ++ news
          /\ map v news = Parser.parseBulk bulk
          /\ map id news
             = map (fun k => JStr (rng w k))
                   (seq (uidCalls w) (List.length (Parser.parseBulk bulk)))).
Proof.
  unfold handleBulkAdd. split.
  - now intros ->.
  - intros Hne. destruct (Parser.parseBulk bulk) as [|x arr] eqn:E; [contradiction|].
    destruct (mapM_stamps stamp (fun c => c) stamp_shape (x :: arr) w)
      as (Hv & Hi & _ & _).
    unfold bind, ret. destruct (mapM stamp (x :: arr) w) as [news w1].
    cbn [fst snd history alerts setHistory] in *.
    repeat split. exists news. rewrite map_id in Hv. now repeat split.
Qed.

Lemma bulk_add_appends_witness :
  Parser.parseBulk "red b; tie" <> []
  /\ map v (history (fst (fst (handleBulkAdd "red b; tie" sampleApp sampleWorld))))
     = [B; B; R; B; T].
Proof.
  assert (N : Parser.parseBulk "red b; tie" <> []) by (vm_compute; discriminate).
  split; [exact N|].
  destruct (proj2 (bulk_add_appends "red b; tie" sampleApp sampleWorld) N)
    as (_ & _ & news & -> & Hv & _).
  now rewrite map_app, Hv.
Defined.

(** X16: undo drops the last record and nothing else; on an empty history it
    changes nothing; and undoing right after a push gives back the state
    from before the push. *)
Theorem undo_drops_last (st : App) (x : ColorKey) (w : World) :
  history (undo st) = removelast (history st)
  /\ alerts (undo st) = alerts st
  /\ (history st = [] -> undo st = st)
  /\ undo (fst (push x st w)) = st.
Proof.
  destruct st as [h al].
  change (fst (push x (mkApp h al) w))
    with (mkApp (h ++ [mkResult (JStr (rng w (uidCalls w))) x
                                (JNum (clock w (S (nowCalls w))))]) al).
  unfold undo. cbn [history alerts setHistory].
  split; [|split; [reflexivity|split]].
  - now rewrite removelast_firstn_len, Nat.sub_1_r.
  - now intros ->.
  - rewrite length_app. cbn [List.length].
    replace (List.length h + 1 - 1) with (List.length h + 0) by lia.
    now rewrite firstn_app_2, app_nil_r.
Qed.

Lemma undo_drops_last_witness :
  history (mkApp [] ["x"%string]) = []
  /\ undo (mkApp [] ["x"%string]) = mkApp [] ["x"%string].
Proof.
  split; [reflexivity|].
  exact (proj1 (proj2 (proj2 (undo_drops_last (mkApp [] ["x"%string]) R sampleWorld)))
               eq_refl).
Defined.

(** *** Removing a record *)

Lemma strictEq_strings (i j : nat) (x r : Result) :
  stringId x -> stringId r ->
  (strictEq i j (id x) (id r) = true <-> id x = id r).
Proof.
  intros [s ->] [t ->]. simpl. rewrite String.eqb_eq. split; congruence.
Qed.

Lemma filterFrom_strings (i : nat) (r : Result) (h : list Result) :
  stringId r -> Forall stringId h ->
  forall j,
    filterFrom (fun k x => negb (strictEq k i (id x) (id r))) j h
    = filter (fun x => negb (strictEq 0 0 (id x) (id r))) h.
Proof.
  intros Hr Hh. induction Hh as [|x h Hx _ IH]; intros j; [reflexivity|].
  cbn [filterFrom filter]. rewrite IH.
  destruct Hx as [s Es], Hr as [t Et]. rewrite Es, Et. reflexivity.
Qed.

Lemma filter_other_ids (r : Result) (h : list Result) :
  stringId r -> Forall stringId h -> ~ In (id r) (map id h) ->
  filter (fun x => negb (strictEq 0 0 (id x) (id r))) h = h.
Proof.
  intros Hr Hh. induction Hh as [|x h Hx _ IH]; intros Hn; [reflexivity|].
  cbn [filter]. destruct (strictEq 0 0 (id x) (id r)) eqn:E.
  - apply strictEq_strings in E; trivial. elim Hn. left. exact E.
  - simpl. rewrite IH; [reflexivity|]. intros Hin. apply Hn. now right.
Qed.

Lemma filter_unique_id (h : list Result) :
  Forall stringId h -> NoDup (map id h) ->
  forall i r,
    nth_error h i = Some r ->
    filter (fun x => negb (strictEq 0 0 (id x) (id r))) h = firstn i h ++ skipn (S i) h.
Proof.
  intros Hh. induction Hh as [|x h Hx Hh IH]; intros Hnd i r Hi.
  - destruct i; discriminate.
  - cbn [map] in Hnd. inversion Hnd as [|? ? Hnot Hnd']; subst.
    destruct i as [|i]; cbn [nth_error] in Hi.
    + inversion Hi; subst r. cbn [filter firstn skipn app].
      rewrite (proj2 (strictEq_strings 0 0 Hx Hx) eq_refl). cbn [negb].
      now apply filter_other_ids.
    + assert (Hr : stringId r).
      { apply nth_error_In in Hi. rewrite Forall_forall in Hh. now apply Hh. }
      cbn [filter firstn skipn app].
      destruct (strictEq 0 0 (id x) (id r)) eqn:E.
      * apply strictEq_strings in E; trivial. elim Hnot. rewrite E.
        apply in_map. eapply nth_error_In. exact Hi.
      * cbn [negb]. f_equal. now apply IH.
Qed.

(** X17: the click on the record at position [i] of a history whose ids are
    strings removes every record that carries the id of that record and no
    other, keeping the order; when no two records share an id this is the
    clicked record alone. A position past the end changes nothing. *)
Theorem delete_removes_that_id (st : App) (i : nat) :
  (nth_error (history st) i = None -> deleteAt i st = st)
  /\ (forall r,
        Forall stringId (history st) -> nth_error (history st) i = Some r ->
        alerts (deleteAt i st) = alerts st
        /\ history (deleteAt i st)
           = filter (fun x => negb (strictEq 0 0 (id x) (id r))) (history st)
        /\ (forall x, In x (history (deleteAt i st))
                      <-> In x (history st) /\ id x <> id r)
        /\ (NoDup (map id (history st)) ->
            history (deleteAt i st)
            = firstn i (history st) ++ skipn (S i) (history st))).
Proof.
  unfold deleteAt. split.
  - now intros ->.
  - intros r Hh Hi. rewrite Hi. cbn [history alerts setHistory].
    assert (Hr : stringId r).
    { apply nth_error_In in Hi. rewrite Forall_forall in Hh. now apply Hh. }
    rewrite (filterFrom_strings i Hr Hh 0).
    split; [reflexivity|]. split; [reflexivity|]. split.
    + intros x. rewrite filter_In. split.
      * intros [Hin Hq]. split; [exact Hin|]. intros E.
        rewrite Forall_forall in Hh.
        apply (strictEq_strings 0 0 (Hh x Hin) Hr) in E. now rewrite E in Hq.
      * intros [Hin Hne]. split; [exact Hin|].
        rewrite Forall_forall in Hh.
        destruct (strictEq 0 0 (id x) (id r)) eqn:E; [|reflexivity].
        apply (strictEq_strings 0 0 (Hh x Hin) Hr) in E. contradiction.
    + intros Hnd. now apply filter_unique_id.
Qed.

Lemma delete_removes_that_id_witness :
  let st := mkApp (historyOf [R; B; T; B]) [] in
  Forall stringId (history st)
  /\ nth_error (history st) 1 = Some (outcome "1" B 1%float)
  /\ NoDup (map id (history st))
  /\ map v (history (deleteAt 1 st)) = [R; T; B].
Proof.
  cbn zeta.
  assert (F : Forall stringId (history (mkApp (historyOf [R; B; T; B]) [])))
    by (repeat constructor; eexists; reflexivity).
  assert (N : nth_error (history (mkApp (historyOf [R; B; T; B]) [])) 1
              = Some (outcome "1" B 1%float)) by reflexivity.
  assert (D : NoDup (map id (history (mkApp (historyOf [R; B; T; B]) [])))).
  { vm_compute. repeat constructor; simpl; intuition discriminate. }
  split; [exact F|]. split; [exact N|]. split; [exact D|].
  destruct (proj2 (delete_removes_that_id (mkApp (historyOf [R; B; T; B]) []) 1)
                  _ F N) as (_ & _ & _ & K).
  now rewrite (K D).
Defined.

(** *** Import of a [results] payload, and of a payload without records *)

Lemma tags_of_kept (items : list Json) :
  map (fun x => asColorKey (Some x)) (filter (fun x => includesTag (Some x)) items)
  = Parser.filterBoolean (map (fun x => tagOf (Some x)) items).
Proof.
  induction items as [|x items IH]; [reflexivity|].
  cbn [filter map Parser.filterBoolean].
  destruct (tagOf (Some x)) as [c|] eqn:E.
  - replace (includesTag (Some x)) with true by (unfold includesTag; now rewrite E).
    cbn [map].
    replace (asColorKey (Some x)) with c by (unfold asColorKey; now rewrite E).
    now rewrite IH.
  - replace (includesTag (Some x)) with false by (unfold includesTag; now rewrite E).
    exact IH.
Qed.

(** X18: importing an object with a [results] array replaces the history by
    one record per entry that is exactly the string [R], [B] or [T], in
    order; entries in lower case, and entries that are no strings, are
    dropped. The [k]-th kept entry gets the id of the [k]-th [uid()] call
    made from then on, and no alert is raised. *)
Theorem import_results_payload (props : list (string * Json)) (items : list Json)
        (st : App) (w : World) :
  lookup "results" props = Some (JArr items) ->
  let st' := fst (importJson (Some (JObj props)) st w) in
  map v (history st') = Parser.filterBoolean (map (fun x => tagOf (Some x)) items)
  /\ map id (history st')
     = map (fun k => JStr (rng w k)) (seq (uidCalls w) (List.length (history st')))
  /\ alerts st' = alerts st.
Proof.
  intros E. cbn zeta. unfold importJson. cbn [member]. rewrite E.
  destruct (mapM_stamps stampTag (fun x => asColorKey (Some x)) stampTag_shape
                        (filter (fun x => includesTag (Some x)) items) w)
    as (Hv & Hi & _ & _).
  unfold bind, ret.
  destruct (mapM stampTag (filter (fun x => includesTag (Some x)) items) w)
    as [valid w1].
  cbn [fst history alerts setHistory] in *.
  split; [now rewrite Hv, tags_of_kept|]. split; [|reflexivity].
  rewrite Hi. f_equal. f_equal.
  now rewrite <- (length_map v valid), Hv, length_map.
Qed.

Lemma import_results_payload_witness :
  let props := [("results",
                 JArr [JStr "R"; JStr "b"; JNum 1; JStr "T"; JStr "RED"; JNull; JStr "B"])]%string in
  lookup "results" props = Some (JArr [JStr "R"; JStr "b"; JNum 1; JStr "T";
                                       JStr "RED"; JNull; JStr "B"])
  /\ map v (history (fst (importJson (Some (JObj props)) sampleApp sampleWorld)))
     = [R; T; B].
Proof.
  cbn zeta. split; [reflexivity|].
  exact (proj1 (@import_results_payload
                  [("results",
                    JArr [JStr "R"; JStr "b"; JNum 1; JStr "T"; JStr "RED"; JNull;
                          JStr "B"])]%string
                  [JStr "R"; JStr "b"; JNum 1; JStr "T"; JStr "RED"; JNull; JStr "B"]
                  sampleApp sampleWorld eq_refl)).
Defined.

(** X19: an import that finds no usable record empties the history. This
    holds for an array none of whose records has a recognised value, the
    empty array included, and for a [results] array without any of the
    strings [R], [B], [T]. *)
Theorem import_without_records_clears (st : App) (w : World) :
  (forall items,
      Forall (fun r => forall c, ~ validRecord r c) items ->
      importJson (Some (JArr items)) st w = (setHistory [] st, w))
  /\ (forall props items,
        lookup "results" props = Some (JArr items) ->
        Forall (fun x => tagOf (Some x) = None) items ->
        importJson (Some (JObj props)) st w = (setHistory [] st, w)).
Proof.
  split.
  - intros items F. unfold importJson.
    replace (filter keepRecord items) with (@nil Json); [reflexivity|].
    induction F as [|r items Hr _ IH]; [reflexivity|].
    cbn [filter]. destruct (keepRecord r) eqn:K; [|exact IH].
    elim (Hr _ (keepRecord_valid r K)).
  - intros props items E F. unfold importJson. cbn [member]. rewrite E.
    replace (filter (fun x => includesTag (Some x)) items) with (@nil Json);
      [reflexivity|].
    clear E. induction F as [|x items Hx _ IH]; [reflexivity|].
    cbn [filter]. unfold includesTag at 1. rewrite Hx. exact IH.
Qed.

Lemma import_without_records_clears_witness :
  Forall (fun r => forall c, ~ validRecord r c) [JNum 4; JObj [("v", JStr "r")]%string]
  /\ history (fst (importJson (Some (JArr [JNum 4; JObj [("v", JStr "r")]%string]))
                              sampleApp sampleWorld)) = [].
Proof.
  assert (F : Forall (fun r => forall c, ~ validRecord r c)
                     [JNum 4; JObj [("v", JStr "r")]%string]).
  { repeat constructor; apply keepRecord_invalid; reflexivity. }
  split; [exact F|].
  now rewrite (proj1 (import_without_records_clears sampleApp sampleWorld) _ F).
Defined.

(** *** Export, then import *)

Lemma recordJson_kept (r : Result) : keepRecord (recordJson r) = true.
Proof. destruct r as [i [] t]; reflexivity. Qed.

Lemma stampRecord_recordJson (r : Result) (w : World) :
  truthy (Some (id r)) = true -> truthy (Some (ts r)) = true ->
  stampRecord (recordJson r) w = (r, w).
Proof.
  intros Hi Ht. destruct r as [i c t]. cbn [id ts] in *.
  unfold stampRecord, bind, ret, recordJson, orElse. cbn [member lookup id v ts].
  cbn [String.eqb Ascii.eqb Bool.eqb andb]. rewrite Hi.
  cbn [String.eqb Ascii.eqb Bool.eqb andb]. rewrite Ht.
  now destruct c.
Qed.

Lemma reparse_recordJson (r : Result) :
  stable r -> reparse (recordJson r) = recordJson r.
Proof.
  intros (_ & Hi & _ & Ht). unfold recordJson. cbn [reparse map fst snd].
  now rewrite Hi, Ht.
Qed.

(** X20: a history survives export and import. If every record has an id
    and a timestamp that pass for present and are written and read back
    unchanged (the non-empty strings and the finite non-zero numbers that
    [push] makes are such), then importing the file that [exportJson]
    writes puts back exactly that history, ids and timestamps included,
    without consulting [uid()] or the clock. *)
Theorem export_import_round_trip (h : list Result) (st : App) (w : World) :
  Forall stable h ->
  importJson (Some (reparse (exported h))) st w = (setHistory h st, w).
Proof.
  intros F. unfold exported. cbn [reparse importJson]. rewrite map_map.
  assert (E : map (fun r => reparse (recordJson r)) h = map recordJson h).
  { apply map_ext_in. intros r Hr. rewrite Forall_forall in F.
    now apply reparse_recordJson, F. }
  rewrite E.
  assert (K : filter keepRecord (map recordJson h) = map recordJson h).
  { clear. induction h as [|r h IH]; [reflexivity|].
    cbn [map filter]. now rewrite recordJson_kept, IH. }
  rewrite K.
  assert (S : mapM stampRecord (map recordJson h) w = (h, w)).
  { clear E K. induction F as [|r h (Hi & _ & Ht & _) _ IH]; [reflexivity|].
    cbn [map mapM]. unfold bind, ret.
    rewrite stampRecord_recordJson by assumption. now rewrite IH. }
  unfold bind, ret. now rewrite S.
Qed.

Lemma export_import_round_trip_witness :
  Forall stable (historyFrom 1 [R; T; B])
  /\ history (fst (importJson (Some (reparse (exported (historyFrom 1 [R; T; B]))))
                              sampleApp sampleWorld))
     = historyFrom 1 [R; T; B].
Proof.
  assert (F : Forall stable (historyFrom 1 [R; T; B]))
    by (repeat constructor).
  split; [exact F|].
  now rewrite (export_import_round_trip sampleApp sampleWorld F).
Defined.

(** *** The polling tick *)

Lemma upperOf_strings (ss : list string) :
  mapThrowing upperOf (map JStr ss) = Some (map Parser.toUpperCase ss).
Proof.
  induction ss as [|s ss IH]; [reflexivity|].
  cbn [map mapThrowing]. rewrite IH.
  now destruct s.
Qed.

Lemma upperOf_throws (items : list Json) (x : Json) :
  In x items -> truthy (Some x) = true -> (forall s, x <> JStr s) ->
  mapThrowing upperOf items = None.
Proof.
  intros Hin Ht Hs. induction items as [|a items IH]; [contradiction|].
  cbn [mapThrowing]. destruct Hin as [-> | Hin].
  - unfold upperOf. rewrite Ht.
    destruct x; try reflexivity. now elim (Hs s).
  - destruct (upperOf a); [|reflexivity]. now rewrite (IH Hin).
Qed.

Lemma upperOf_throws_inv (items : list Json) :
  mapThrowing upperOf items = None ->
  exists x, In x items /\ truthy (Some x) = true /\ forall s, x <> JStr s.
Proof.
  induction items as [|a items IH]; [discriminate|].
  cbn [mapThrowing]. destruct (upperOf a) as [u|] eqn:Ea.
  - destruct (mapThrowing upperOf items); [discriminate|].
    intros _. destruct (IH eq_refl) as (x & Hin & Hx).
    exists x. split; [now right | exact Hx].
  - intros _. exists a. split; [now left|].
    unfold upperOf in Ea. destruct (truthy (Some a)) eqn:Et; [|discriminate].
    split; [reflexivity|]. intros s ->. discriminate.
Qed.

Lemma poll_quiet_after_upper (items : list Json) (upper : list string)
      (st : App) (w : World) :
  snd (fst ((next <- mapM (fun s => stampTag (JStr s))
                          (filter (fun s => includesTag (Some (JStr s))) upper) ;;
             match next with
             | [] => ret (st, false)
             | _ => ret (setHistory next st, false)
             end) w)) = false.
Proof.
  unfold bind, ret.
  destruct (mapM (fun s => stampTag (JStr s))
                 (filter (fun s => includesTag (Some (JStr s))) upper) w)
    as [[|r next] w1]; reflexivity.
Qed.

(** X21: a polling tick that cannot use its answer leaves the history, and
    the world, as they are. This is so when no URL is set, when the fetch or
    its decoding fails, when the answer, whatever it is ([null], a number, a
    string, an array, an object), is no object with a [results] array, and
    when the [results] array holds an entry that is truthy but no string (a
    number, [true], an object): that entry makes the whole tick fail, valid
    tags beside it notwithstanding. [console.warn] is reached exactly when,
    with a URL set, the fetch fails or such an entry is met; in particular
    a tick that replaces the history, or finds no tag, does not warn. *)
Theorem poll_failures_keep_history (pollUrl : string) (st : App) (w : World) :
  (forall response, pollTick "" response st w = ((st, false), w))
  /\ (pollUrl <> EmptyString ->
      pollTick pollUrl None st w = ((st, true), w)
      /\ (forall data,
            (forall props items,
                data = JObj props -> lookup "results" props <> Some (JArr items)) ->
            pollTick pollUrl (Some data) st w = ((st, false), w))
      /\ (forall props items x,
            lookup "results" props = Some (JArr items) ->
            In x items -> truthy (Some x) = true -> (forall s, x <> JStr s) ->
            pollTick pollUrl (Some (JObj props)) st w = ((st, true), w)))
  /\ (forall response,
        snd (fst (pollTick pollUrl response st w)) = true
        <-> pollUrl <> EmptyString
            /\ (response = None
                \/ exists props items x,
                    response = Some (JObj props)
                    /\ lookup "results" props = Some (JArr items)
                    /\ In x items /\ truthy (Some x) = true
                    /\ forall s, x <> JStr s)).
Proof.
  split; [reflexivity|]. split.
  - intros Hu. apply String.eqb_neq in Hu. unfold pollTick. rewrite Hu.
    split; [reflexivity|]. split.
    + intros data Hno. destruct data as [| | | | |props]; try reflexivity.
      cbn [member].
      destruct (lookup "results" props) as [[| | | |items|]|] eqn:E; try reflexivity.
      now elim (Hno props items eq_refl).
    + intros props items x E Hin Ht Hs. cbn [member]. rewrite E.
      now rewrite (upperOf_throws items Hin Ht Hs).
  - intros response. unfold pollTick.
    destruct (String.eqb pollUrl "") eqn:Hu.
    + apply String.eqb_eq in Hu. split; [discriminate|]. now intros [H _].
    + apply String.eqb_neq in Hu.
      destruct response as [data|].
      2:{ split; [intros _; split; [exact Hu | now left] | reflexivity]. }
      destruct data as [| | | | |props];
        try (split; [simpl; discriminate|];
             intros [_ [H | (p & i & y & H & _)]]; discriminate).
      cbn [member].
      destruct (lookup "results" props) as [[| | | |items|]|] eqn:E;
        try (split; [simpl; discriminate|];
             intros [_ [H | (p & i & y & H & H' & _)]]; [discriminate|];
             inversion H; subst; rewrite E in H'; discriminate).
      destruct (mapThrowing upperOf items) as [upper|] eqn:Em.
      * rewrite (poll_quiet_after_upper items upper st w).
        split; [discriminate|].
        intros [_ [H | (p & i & x & H & H' & Hin & Ht & Hs)]]; [discriminate|].
        inversion H; subst. rewrite E in H'. inversion H'; subst.
        rewrite (upperOf_throws i Hin Ht Hs) in Em. discriminate.
      * split; [|reflexivity]. intros _. split; [exact Hu|]. right.
        destruct (upperOf_throws_inv items Em) as (x & Hin & Ht & Hs).
        now exists props, items, x.
Qed.

Lemma poll_failures_keep_history_witness :
  let props := [("results", JArr [JStr "R"; JNum 7; JStr "B"])]%string in
  "u"%string <> EmptyString
  /\ history (fst (fst (pollTick "u" (Some (JObj props)) sampleApp sampleWorld)))
     = history sampleApp
  /\ snd (fst (pollTick "u" (Some (JObj props)) sampleApp sampleWorld)) = true.
Proof.
  cbn zeta.
  assert (U : "u"%string <> EmptyString) by discriminate.
  split; [exact U|].
  destruct (proj1 (proj2 (@poll_failures_keep_history "u" sampleApp sampleWorld)) U)
    as (_ & _ & K).
  rewrite (K [("results", JArr [JStr "R"; JNum 7; JStr "B"])]%string
             [JStr "R"; JNum 7; JStr "B"] (JNum 7) eq_refl
             (or_intror (or_introl eq_refl)) eq_refl);
    [split; reflexivity | discriminate].
Defined.

(** X22: a polling tick whose [results] are strings reads them in upper
    case. With a URL set, the tags are the entries that are [R], [B] or [T]
    once in upper case, in order, so lower-case entries count here. If
    there is none the history and the world stay as they are; otherwise the
    history is replaced by one record per tag, the [k]-th with the id of
    the [k]-th [uid()] call made from then on. *)
Theorem poll_replaces_with_upper_tags (pollUrl : string)
        (props : list (string * Json)) (ss : list string) (st : App) (w : World) :
  pollUrl <> EmptyString ->
  lookup "results" props = Some (JArr (map JStr ss)) ->
  let tags :=
    Parser.filterBoolean
      (map (fun s => tagOf (Some (JStr (Parser.toUpperCase s)))) ss) in
  let st' := fst (fst (pollTick pollUrl (Some (JObj props)) st w)) in
  (tags = [] -> pollTick pollUrl (Some (JObj props)) st w = ((st, false), w))
  /\ (tags <> [] ->
      map v (history st') = tags
      /\ map id (history st')
         = map (fun k => JStr (rng w k)) (seq (uidCalls w) (List.length tags)))
  /\ alerts st' = alerts st.
Proof.
  intros Hu E. cbn zeta.
  apply String.eqb_neq in Hu. unfold pollTick. rewrite Hu. cbn [member].
  rewrite E, upperOf_strings.
  set (sanitized := filter (fun s => includesTag (Some (JStr s)))
                           (map Parser.toUpperCase ss)).
  assert (T : map (fun s => asColorKey (Some (JStr s))) sanitized
              = Parser.filterBoolean
                  (map (fun s => tagOf (Some (JStr (Parser.toUpperCase s)))) ss)).
  { unfold sanitized. clear. induction ss as [|s ss IH]; [reflexivity|].
    cbn [map filter Parser.filterBoolean].
    destruct (tagOf (Some (JStr (Parser.toUpperCase s)))) as [c|] eqn:Ec.
    - replace (includesTag (Some (JStr (Parser.toUpperCase s)))) with true
        by (unfold includesTag; now rewrite Ec).
      cbn [map].
      replace (asColorKey (Some (JStr (Parser.toUpperCase s)))) with c
        by (unfold asColorKey; now rewrite Ec).
      now rewrite IH.
    - replace (includesTag (Some (JStr (Parser.toUpperCase s)))) with false
        by (unfold includesTag; now rewrite Ec).
      exact IH. }
  destruct (mapM_stamps (fun s => stampTag (JStr s))
                        (fun s => asColorKey (Some (JStr s)))
                        (fun s w0 => stampTag_shape (JStr s) w0) sanitized w)
    as (Hv & Hi & _ & _).
  rewrite T in Hv. rewrite <- T. unfold bind, ret.
  destruct sanitized as [|s0 rest] eqn:Es.
  - split; [reflexivity|]. split; [|reflexivity]. intros H. now elim H.
  - destruct (mapM (fun s => stampTag (JStr s)) (s0 :: rest) w) as [next w1] eqn:En.
    cbn [fst] in Hv, Hi.
    destruct next as [|r0 next]; [discriminate|].
    cbn [fst history alerts setHistory].
    split; [discriminate|]. split; [|reflexivity]. intros _.
    split; [now rewrite Hv, T|].
    rewrite Hi. now rewrite length_map.
Qed.

Lemma poll_replaces_with_upper_tags_witness :
  let props := [("results", JArr (map JStr ["r"; "x"; "T"; "blue"; "b"]%string))]%string in
  "u"%string <> EmptyString
  /\ lookup "results" props = Some (JArr (map JStr ["r"; "x"; "T"; "blue"; "b"]%string))
  /\ map v (history (fst (fst (pollTick "u" (Some (JObj props)) sampleApp sampleWorld))))
     = [R; T; B].
Proof.
  cbn zeta.
  assert (U : "u"%string <> EmptyString) by discriminate.
  split; [exact U|]. split; [reflexivity|].
  destruct (@poll_replaces_with_upper_tags
              "u" [("results", JArr (map JStr ["r"; "x"; "T"; "blue"; "b"]%string))]%string
              ["r"; "x"; "T"; "blue"; "b"]%string sampleApp sampleWorld U eq_refl)
    as (_ & K & _).
  exact (proj1 (K ltac:(vm_compute; discriminate))).
Defined.

End MoreTracker.
